(** * matchengine task handlers: a shallow embedding of
      [matchengine/internals/utilities/task_utils.py]

    The module holds the six coroutines a worker dispatches to
    ([run_check_indices_task], [run_index_update_task], [run_query_task],
    [run_poison_pill], [run_update_task], [run_run_log_update_task]).
    Each one is embedded as a computation in a state-and-exception monad
    over the mutable part of the engine ([World]); the parts of the engine
    that the handlers only read are in [Engine].  The document store and the
    matching logic are collaborators, taken through two interfaces
    ([StoreClient], [Matcher]). *)

From Stdlib Require Import ZArith List Lia.
From stdpp Require Import base option list gmap sets strings.

Local Open Scope string_scope.
Local Open Scope list_scope.

(** ** Python exceptions *)

(** The exception classes the handlers can meet.  In pymongo
    [NetworkTimeout] and [NotPrimaryError] derive from [AutoReconnect],
    and [CursorNotFound] derives from [OperationFailure];
    [InvalidOperation] is what the client raises for a request it does not
    send. *)
Inductive exn_class :=
| AutoReconnect
| NetworkTimeout
| NotPrimaryError
| CursorNotFound
| OperationFailure
| InvalidOperation
| KeyError
| IndexError
| TypeError
| ValueError
| RuntimeError.

Record exn := Exn { exn_cls : exn_class; exn_msg : string }.

(** [isinstance(e, AutoReconnect)] *)
Definition isinstance_AutoReconnect (e : exn) : bool :=
  match exn_cls e with
  | AutoReconnect | NetworkTimeout | NotPrimaryError => true
  | _ => false
  end.

(** [isinstance(e, CursorNotFound)] *)
Definition isinstance_CursorNotFound (e : exn) : bool :=
  match exn_cls e with
  | CursorNotFound => true
  | _ => false
  end.

(** The classification of section 4.8 of the specification: a failure is
    transient when the store signals a connection loss or failover, or a
    cursor that expired on the server. *)
Definition transient_store (e : exn) : bool :=
  isinstance_AutoReconnect e || isinstance_CursorNotFound e.

Inductive result (A : Type) :=
| Ok (a : A)
| Raise (e : exn).
Arguments Ok {A} a.
Arguments Raise {A} e.

(** ** Documents *)

(** Values held in the documents the handlers touch: identifiers and
    lists of identifiers. *)
Inductive pyval :=
| VStr (s : string)
| VList (l : list string).

(** A Python [dict] with string keys. *)
Abbreviation Document := (gmap string pyval).

(** An index descriptor as [list_indexes] yields it; [ix_key] is the
    ordered key document of the index (field name, direction). *)
Record IndexDoc := { ix_name : string; ix_key : list (string * Z) }.

Inductive WriteOp :=
| InsertOne (doc : Document)
| UpdateOne (filter update : Document) (upsert : bool)
| DeleteOne (filter : Document).

(** The filter [{field: {"$in": values}}]. *)
Record InFilter := { flt_field : string; flt_in : list string }.

(** The update [{"$push": {field: value}}]. *)
Record PushUpdate := { push_field : string; push_value : string }.

(** ** Tasks and trial matches *)

(** The payload types that the handlers only pass along. *)
Class Payloads := {
  Query : Type;
  MatchClauseData : Type;
  MatchPath : Type;
  MatchReason : Type
}.

Section Tasks.
Context {P : Payloads}.

(** A trial document; trials are stored under their protocol number. *)
Record Trial := { protocol_no : string; trial_body : Document }.

Record IndexUpdateTask := { iut_collection : string; iut_index : string }.

Record QueryTask := {
  qt_trial : Trial;
  qt_match_clause_data : MatchClauseData;
  qt_match_path : MatchPath;
  qt_query : Query;
  qt_clinical_ids : list string
}.

Record UpdateTask := { ut_ops : list WriteOp; ut_protocol_no : string }.

Record RunLogUpdateTask := { rlt_protocol_no : string }.

Inductive Task :=
| ACheckIndicesTask
| AnIndexUpdateTask (t : IndexUpdateTask)
| AQueryTask (t : QueryTask)
| AnUpdateTask (t : UpdateTask)
| ARunLogUpdateTask (t : RunLogUpdateTask)
| APoisonPill.

Record TrialMatch := {
  tm_trial : Trial;
  tm_match_clause_data : MatchClauseData;
  tm_match_path : MatchPath;
  tm_query : Query;
  tm_match_reason : MatchReason;
  tm_run_log : Z
}.

End Tasks.

(** ** Collaborators *)

(** The document store, seen through the calls the handlers make.  The
    failures of a call are not part of this interface: they come from the
    fault schedule of the [World]. *)
Class StoreClient := {
  store : Type;
  list_indexes : store → string → list IndexDoc;
  distinct : store → string → string → list string;
  create_index : store → string → string → store;
  (* [bulk_write(ops, ordered=False)] *)
  bulk_write : store → string → list WriteOp → store;
  insert_one : store → string → Document → store;
  update_many : store → string → InFilter → PushUpdate → store
}.

(** The matching logic of the engine ([MatchEngine.run_query] and
    [MatchEngine.create_trial_matches]), which is not part of this
    module. *)
Class Matcher {P : Payloads} {SC : StoreClient} := {
  query_reasons : store → Query → list string → list MatchReason;
  create_trial_matches : TrialMatch → result Document
}.

(** ** The engine *)

Inductive LogLevel := INFO | ERROR.

(** The records the handlers log.  [MsgTraceback] is the record
    ["TRACEBACK: None"]: the handlers format the value of
    [traceback.print_tb], which prints the traceback on the standard
    error stream and returns [None], so what is logged holds nothing of
    the exception.  [MsgErrorTraceback] is the record that has the error
    followed by the same ["TRACEBACK: None"]. *)
Inductive LogMsg :=
| MsgGotCheckIndices (worker : Z)
| MsgGotIndexUpdate (worker : Z) (index collection : string)
| MsgGotQuery (worker : Z) (protocol : string) (qsize : nat)
| MsgGotPoisonPill (worker : Z)
| MsgGotUpdate (worker : Z) (protocol : string)
| MsgGotRunLogUpdate (worker : Z) (protocol : string)
| MsgError (worker : Z) (e : exn)
| MsgTraceback
| MsgErrorTraceback (worker : Z) (e : exn)
| MsgTrialMatchCount (n : Z).

Section Engine.
Context {P : Payloads} {SC : StoreClient} {MT : Matcher}.

(** What the handlers only read of the [MatchEngine] object. *)
Record Engine := {
  debug : bool;
  config_indices : list (string * list string);
  trial_match_collection : string;
  run_id_hex : string;
  starttime : Z;
  run_log_entries : gmap string Document;
  clinical_run_log_entries : gmap string (gset string)
}.

(** An [asyncio.Queue] without a size bound: the waiting items and the
    count of unfinished tasks. *)
Record Queue := { q_items : list Task; q_unfinished : nat }.

(** What the handlers change.  [acks] counts the calls of [task_done]
    that returned; [faults] is the schedule of store failures, one entry
    for each call that reaches the store. *)
Record World := {
  task_q : Queue;
  acks : nat;
  queue_task_count : Z;
  matches : gmap string (gmap string (list Document));
  db : store;
  faults : list (option exn);
  loop_stopped : bool;
  resources_released : bool;
  log : list (LogLevel * LogMsg)
}.

Definition with_task_q (q : Queue) (w : World) : World :=
  {| task_q := q; acks := acks w; queue_task_count := queue_task_count w;
     matches := matches w; db := db w; faults := faults w;
     loop_stopped := loop_stopped w;
     resources_released := resources_released w; log := log w |}.

Definition with_acks (n : nat) (w : World) : World :=
  {| task_q := task_q w; acks := n; queue_task_count := queue_task_count w;
     matches := matches w; db := db w; faults := faults w;
     loop_stopped := loop_stopped w;
     resources_released := resources_released w; log := log w |}.

Definition with_queue_task_count (n : Z) (w : World) : World :=
  {| task_q := task_q w; acks := acks w; queue_task_count := n;
     matches := matches w; db := db w; faults := faults w;
     loop_stopped := loop_stopped w;
     resources_released := resources_released w; log := log w |}.

Definition with_matches (m : gmap string (gmap string (list Document)))
    (w : World) : World :=
  {| task_q := task_q w; acks := acks w;
     queue_task_count := queue_task_count w;
     matches := m; db := db w; faults := faults w;
     loop_stopped := loop_stopped w;
     resources_released := resources_released w; log := log w |}.

Definition with_db (d : store) (w : World) : World :=
  {| task_q := task_q w; acks := acks w;
     queue_task_count := queue_task_count w;
     matches := matches w; db := d; faults := faults w;
     loop_stopped := loop_stopped w;
     resources_released := resources_released w; log := log w |}.

Definition with_faults (f : list (option exn)) (w : World) : World :=
  {| task_q := task_q w; acks := acks w;
     queue_task_count := queue_task_count w;
     matches := matches w; db := db w; faults := f;
     loop_stopped := loop_stopped w;
     resources_released := resources_released w; log := log w |}.

Definition with_loop_stopped (b : bool) (w : World) : World :=
  {| task_q := task_q w; acks := acks w;
     queue_task_count := queue_task_count w;
     matches := matches w; db := db w; faults := faults w;
     loop_stopped := b;
     resources_released := resources_released w; log := log w |}.

Definition with_resources_released (b : bool) (w : World) : World :=
  {| task_q := task_q w; acks := acks w;
     queue_task_count := queue_task_count w;
     matches := matches w; db := db w; faults := faults w;
     loop_stopped := loop_stopped w;
     resources_released := b; log := log w |}.

Definition with_log (l : list (LogLevel * LogMsg)) (w : World) : World :=
  {| task_q := task_q w; acks := acks w;
     queue_task_count := queue_task_count w;
     matches := matches w; db := db w; faults := faults w;
     loop_stopped := loop_stopped w;
     resources_released := resources_released w; log := l |}.

(** ** The monad of handlers *)

(** A computation changes the world and returns or raises; what it did
    before raising stays done. *)
Definition M (A : Type) : Type := World → World * result A.

Definition ret {A} (a : A) : M A := λ w, (w, Ok a).

Definition bind {A B} (m : M A) (k : A → M B) : M B :=
  λ w, match m w with
       | (w', Ok a) => k a w'
       | (w', Raise e) => (w', Raise e)
       end.

Definition raise {A} (e : exn) : M A := λ w, (w, Raise e).

Definition get_world : M World := λ w, (w, Ok w).

Definition modify (f : World → World) : M unit := λ w, (f w, Ok tt).

(** [try: m except Exception as e: h e] *)
Definition try_except {A} (m : M A) (h : exn → M A) : M A :=
  λ w, match m w with
       | (w', Ok a) => (w', Ok a)
       | (w', Raise e) => h e w'
       end.

(** [try: m finally: f]; an exception of [f] replaces the outcome of
    [m]. *)
Definition try_finally {A} (m : M A) (f : M unit) : M A :=
  λ w, match m w with
       | (w', r) =>
           match f w' with
           | (w'', Ok _) => (w'', r)
           | (w'', Raise e) => (w'', Raise e)
           end
       end.

#[export] Instance M_ret : MRet M := @ret.
#[export] Instance M_bind : MBind M := λ A B k m, bind m k.

(** [for x in l: body x] *)
Fixpoint for_each {A} (l : list A) (body : A → M unit) : M unit :=
  match l with
  | [] => mret tt
  | x :: l' => body x ;; for_each l' body
  end.

(** A loop that carries an accumulator. *)
Fixpoint fold_each {A B} (l : list A) (acc : B) (body : B → A → M B) : M B :=
  match l with
  | [] => mret acc
  | x :: l' => acc' ← body acc x; fold_each l' acc' body
  end.

Definition when (b : bool) (m : M unit) : M unit :=
  if b then m else mret tt.

(** ** Primitive effects *)

Definition log_info (m : LogMsg) : M unit :=
  modify (λ w, with_log (log w ++ [(INFO, m)]) w).

Definition log_error (m : LogMsg) : M unit :=
  modify (λ w, with_log (log w ++ [(ERROR, m)]) w).

(** [Queue.put_nowait] and, the queue being unbounded, [await Queue.put]. *)
Definition put_nowait (t : Task) : M unit :=
  modify (λ w, with_task_q
                 {| q_items := q_items (task_q w) ++ [t];
                    q_unfinished := S (q_unfinished (task_q w)) |} w).

(** [Queue.task_done]: raises [ValueError] when called more often than
    items were put. *)
Definition task_done : M unit :=
  λ w, match q_unfinished (task_q w) with
       | O => (w, Raise (Exn ValueError "task_done() called too many times"))
       | S n => (with_acks (S (acks w))
                   (with_task_q {| q_items := q_items (task_q w);
                                   q_unfinished := n |} w), Ok tt)
       end.

(** [Queue.qsize] *)
Definition qsize : M nat := λ w, (w, Ok (length (q_items (task_q w)))).

(** [matchengine.loop.stop()] *)
Definition loop_stop : M unit := modify (with_loop_stopped true).

(** Modelled from the spec: [MatchEngine.__exit__], which is not in this
    module; section 4.8 has the fatal path release any held resources. *)
Definition engine_exit : M unit := modify (with_resources_released true).

(** The next entry of the fault schedule; a schedule that ran out holds no
    further failure. *)
Definition take_fault : M (option exn) :=
  λ w, (with_faults (tail (faults w)) w, Ok (mjoin (head (faults w)))).

(** A call that reaches the store takes the next entry of the fault
    schedule and fails with it, leaving the store as it was. *)
Definition store_call : M unit :=
  f ← take_fault;
  match f with
  | Some e => raise e
  | None => mret tt
  end.

Definition db_list_indexes (collection : string) : M (list IndexDoc) :=
  store_call ;; w ← get_world; mret (list_indexes (db w) collection).

Definition db_create_index (collection index : string) : M unit :=
  store_call ;; modify (λ w, with_db (create_index (db w) collection index) w).

(** [bulk_write(ops, ordered=False)] on a collection.  The client refuses
    a batch that holds no operation with [InvalidOperation] and sends
    nothing; a batch that holds one is a request to the store.  The fault
    schedule is asked for both: a failure it holds is the outcome of the
    call. *)
Definition db_bulk_write (collection : string) (ops : list WriteOp) : M unit :=
  store_call ;;
  match ops with
  | [] => raise (Exn InvalidOperation "No operations to execute")
  | _ :: _ => modify (λ w, with_db (bulk_write (db w) collection ops) w)
  end.

Definition db_update_many (collection : string) (f : InFilter)
    (u : PushUpdate) : M unit :=
  store_call ;; modify (λ w, with_db (update_many (db w) collection f u) w).

(** [MatchEngine.run_query]: a store round trip. *)
Definition run_query (q : Query) (clinical_ids : list string)
    : M (list MatchReason) :=
  store_call ;; w ← get_world; mret (query_reasons (db w) q clinical_ids).

(** [d[k]] on a [dict]. *)
Definition getitem {V} (d : gmap string V) (k : string) : M V :=
  match d !! k with
  | Some v => mret v
  | None => raise (Exn KeyError k)
  end.

Definition lift_result {A} (r : result A) : M A :=
  match r with
  | Ok a => mret a
  | Raise e => raise e
  end.

(** ** The handlers *)

(** The two [log.error] calls every [except] block starts with. *)
Definition log_caught (worker_id : Z) (e : exn) : M unit :=
  log_error (MsgError worker_id e) ;; log_error MsgTraceback.

(** [list(index['key'].to_dict().keys())[0]] *)
Definition first_key (index : IndexDoc) : M string :=
  match ix_key index with
  | (k, _) :: _ => mret k
  | [] => raise (Exn IndexError "list index out of range")
  end.

(** The loop that fills [existing_indices]. *)
Definition existing_index_keys (indices : list IndexDoc) : M (gset string) :=
  fold_each indices ∅ (λ existing_indices index,
    index_key ← first_key index;
    mret (existing_indices ∪ {[index_key]})).

(** [collection = matchengine.trial_match_collection] when the configured
    name is the alias. *)
Definition resolve_collection (me : Engine) (collection : string) : string :=
  if decide (collection = "trial_match") then trial_match_collection me
  else collection.

Definition mk_index_update (collection index : string) : Task :=
  AnIndexUpdateTask {| iut_collection := collection; iut_index := index |}.

(** The body of the loop over [config['indices'].items()]. *)
Definition check_collection (me : Engine) (entry : string * list string)
    : M unit :=
  let collection := resolve_collection me entry.1 in
  let desired_indices := entry.2 in
  indices ← db_list_indexes collection;
  existing_indices ← existing_index_keys indices;
  let indices_to_create :=
    (list_to_set desired_indices : gset string) ∖ existing_indices in
  for_each (elements indices_to_create) (λ index,
    put_nowait (mk_index_update collection index)).

(** The [try] block of [run_check_indices_task]. *)
Definition check_indices_body (me : Engine) : M unit :=
  for_each (config_indices me) (check_collection me) ;;
  task_done.

Definition run_check_indices_task (me : Engine) (task : Task)
    (worker_id : Z) : M unit :=
  when (debug me) (log_info (MsgGotCheckIndices worker_id)) ;;
  try_except
    (check_indices_body me)
    (λ e,
       log_caught worker_id e ;;
       if isinstance_AutoReconnect e then
         put_nowait task ;; task_done
       else if isinstance_CursorNotFound e then
         put_nowait task ;; task_done
       else
         engine_exit ;;
         loop_stop ;;
         log_error (MsgErrorTraceback worker_id e) ;;
         raise e).

(** The [try] block of [run_index_update_task]. *)
Definition index_update_body (task : IndexUpdateTask) : M unit :=
  db_create_index (iut_collection task) (iut_index task) ;;
  task_done.

Definition run_index_update_task (me : Engine) (task : IndexUpdateTask)
    (worker_id : Z) : M unit :=
  when (debug me)
    (log_info (MsgGotIndexUpdate worker_id (iut_index task)
                 (iut_collection task))) ;;
  try_except
    (index_update_body task)
    (λ e,
       log_caught worker_id e ;;
       if isinstance_AutoReconnect e then
         put_nowait (AnIndexUpdateTask task) ;; task_done
       else if isinstance_CursorNotFound e then
         put_nowait (AnIndexUpdateTask task) ;; task_done
       else
         loop_stop ;;
         log_error (MsgErrorTraceback worker_id e)).

(** Modelled from the spec: the container behind [matchengine.matches] is
    made by the engine, outside this module; section 3 has it map a
    protocol number to a map from sample ids to sequences of documents
    that are only appended to.  So
    [matches[protocol][sample_id].append(doc)] on a bucket that is not
    there yet starts it empty. *)
Definition append_match (protocol sample_id : string) (doc : Document)
    (m : gmap string (gmap string (list Document)))
    : gmap string (gmap string (list Document)) :=
  let by_sample := default ∅ (m !! protocol) in
  let bucket := default [] (by_sample !! sample_id) in
  <[protocol := <[sample_id := bucket ++ [doc]]> by_sample]> m.

(** A value used as a key of [matches] has to be hashable. *)
Definition as_key (v : pyval) : M string :=
  match v with
  | VStr s => mret s
  | VList _ => raise (Exn TypeError "unhashable type: 'list'")
  end.

Definition mk_trial_match (me : Engine) (task : QueryTask)
    (result : MatchReason) : TrialMatch :=
  {| tm_trial := qt_trial task;
     tm_match_clause_data := qt_match_clause_data task;
     tm_match_path := qt_match_path task;
     tm_query := qt_query task;
     tm_match_reason := result;
     tm_run_log := starttime me |}.

(** The body of [for result in results]. *)
Definition aggregate_result (me : Engine) (task : QueryTask)
    (result : MatchReason) : M unit :=
  modify (λ w, with_queue_task_count (queue_task_count w + 1) w) ;;
  w ← get_world;
  when (bool_decide (queue_task_count w `mod` 1000 = 0)%Z)
    (log_info (MsgTrialMatchCount (queue_task_count w))) ;;
  match_document ← lift_result
    (create_trial_matches (mk_trial_match me task result));
  sample ← getitem match_document "sample_id";
  sample_id ← as_key sample;
  modify (λ w, with_matches
                 (append_match (protocol_no (qt_trial task)) sample_id
                    match_document (matches w)) w).

(** The first [try] of [run_query_task]: the results of the query, or
    the empty list after a failure. *)
Definition query_phase (me : Engine) (task : QueryTask) (worker_id : Z)
    : M (list MatchReason) :=
  try_except
    (run_query (qt_query task) (qt_clinical_ids task))
    (λ e,
       log_caught worker_id e ;;
       (if isinstance_AutoReconnect e then
          put_nowait (AQueryTask task) ;; task_done
        else if isinstance_CursorNotFound e then
          put_nowait (AQueryTask task) ;; task_done
        else
          loop_stop ;;
          log_caught worker_id e) ;;
       mret []).

(** The second [try] of [run_query_task]. *)
Definition aggregation_phase (me : Engine) (task : QueryTask)
    (worker_id : Z) (results : list MatchReason) : M unit :=
  try_except
    (for_each results (aggregate_result me task))
    (λ e,
       loop_stop ;;
       log_caught worker_id e ;;
       raise e).

(** The [log.info] that opens [run_query_task]. *)
Definition announce_query_task (task : QueryTask) (worker_id : Z) : M unit :=
  n ← qsize;
  log_info (MsgGotQuery worker_id (protocol_no (qt_trial task)) n).

Definition run_query_task (me : Engine) (task : QueryTask) (worker_id : Z)
    : M unit :=
  announce_query_task task worker_id ;;
  results ← query_phase me task worker_id;
  aggregation_phase me task worker_id results ;;
  task_done.

Definition run_poison_pill (me : Engine) (task : Task) (worker_id : Z)
    : M unit :=
  when (debug me) (log_info (MsgGotPoisonPill worker_id)) ;;
  task_done.

(** The [try] block of [run_update_task]. *)
Definition update_body (me : Engine) (task : UpdateTask) (worker_id : Z)
    : M unit :=
  when (debug me)
    (log_info (MsgGotUpdate worker_id (ut_protocol_no task))) ;;
  db_bulk_write (trial_match_collection me) (ut_ops task).

Definition run_update_task (me : Engine) (task : UpdateTask)
    (worker_id : Z) : M unit :=
  try_finally
    (try_except
       (update_body me task worker_id)
       (λ e,
          log_caught worker_id e ;;
          if isinstance_AutoReconnect e then
            task_done ;; put_nowait (AnUpdateTask task)
          else
            raise e))
    task_done.

(** [asyncio.gather] of the [distinct] read and the [insert_one] of the
    run-log document.  Both requests are issued, in the order of the
    arguments; a failure of one does not keep the other from running, and
    the first failure is the one raised. *)
Definition gather_distinct_insert (me : Engine) (ledger run_log : string)
    (protocol : string) : M (list string) :=
  w ← get_world;
  let ids := distinct (db w) ledger "clinical_id" in
  fault_distinct ← take_fault;
  summary ← getitem (run_log_entries me) protocol;
  fault_insert ← take_fault;
  match fault_insert with
  | None => modify (λ w, with_db (insert_one (db w) run_log summary) w)
  | Some _ => mret tt
  end ;;
  match fault_distinct, fault_insert with
  | Some e, _ => raise e
  | None, Some e => raise e
  | None, None => mret ids
  end.

Definition ledger_stub (clinical_id : string) : WriteOp :=
  InsertOne (<["clinical_id" := VStr clinical_id]>
               (<["run_history" := VList []]> ∅)).

Definition clinical_run_history_collection (me : Engine) : string :=
  "clinical_run_history_" +:+ trial_match_collection me.

Definition run_log_collection (me : Engine) : string :=
  "run_log_" +:+ trial_match_collection me.

(** The [try] block of [run_run_log_update_task]. *)
Definition run_log_update_body (me : Engine) (task : RunLogUpdateTask)
    (worker_id : Z) : M unit :=
  when (debug me)
    (log_info (MsgGotRunLogUpdate worker_id (rlt_protocol_no task))) ;;
  dont_need_insert ← gather_distinct_insert me
    (clinical_run_history_collection me) (run_log_collection me)
    (rlt_protocol_no task);
  entries ← getitem (clinical_run_log_entries me) (rlt_protocol_no task);
  let new_clinical_run_log_docs :=
    entries ∖ (list_to_set dont_need_insert : gset string) in
  let clinical_update_ops :=
    ledger_stub <$> elements new_clinical_run_log_docs in
  match clinical_update_ops with
  | [] => mret tt
  | _ :: _ => db_bulk_write (clinical_run_history_collection me)
                clinical_update_ops
  end ;;
  entries' ← getitem (clinical_run_log_entries me) (rlt_protocol_no task);
  db_update_many (clinical_run_history_collection me)
    {| flt_field := "clinical_id"; flt_in := elements entries' |}
    {| push_field := "run_history"; push_value := run_id_hex me |}.

Definition run_run_log_update_task (me : Engine) (task : RunLogUpdateTask)
    (worker_id : Z) : M unit :=
  try_finally
    (try_except
       (run_log_update_body me task worker_id)
       (λ e,
          log_caught worker_id e ;;
          if isinstance_AutoReconnect e then
            task_done ;; put_nowait (ARunLogUpdateTask task)
          else
            raise e))
    task_done.

(** ** Observations on worlds *)

(** The failure the next store call meets, if any. *)
Definition next_fault (w : World) : option exn := mjoin (head (faults w)).

(** No store call fails any more. *)
Definition calm (w : World) : bool :=
  forallb (λ f : option exn, if f is Some _ then false else true) (faults w).

(** The worker holds a task it took from the queue and has not
    acknowledged yet. *)
Definition outstanding (w : World) : bool :=
  bool_decide (0 < q_unfinished (task_q w)).

(** The keys [run_check_indices_task] takes for existing: the first key
    of every index. *)
Definition leading_keys (indices : list IndexDoc) : list string :=
  omap (λ ix, fst <$> head (ix_key ix)) indices.

(** Every index descriptor has a key document with a field in it. *)
Definition keyed (indices : list IndexDoc) : bool :=
  forallb (λ ix, if ix_key ix is [] then false else true) indices.

(** The store has a keyed descriptor for every index of every configured
    collection. *)
Definition listable (me : Engine) (w : World) : bool :=
  forallb (λ entry : string * list string,
             keyed (list_indexes (db w) (resolve_collection me entry.1)))
    (config_indices me).

(** The match document of a reason together with the sample it names,
    when the reason converts to a document that names one. *)
Definition converted (me : Engine) (task : QueryTask) (reason : MatchReason)
    : option (Document * string) :=
  match create_trial_matches (mk_trial_match me task reason) with
  | Ok doc =>
      match doc !! "sample_id" with
      | Some (VStr sample_id) => Some (doc, sample_id)
      | _ => None
      end
  | Raise _ => None
  end.

(** The index names [run_check_indices_task] finds missing on a
    collection. *)
Definition missing_indices (s : store) (collection : string)
    (desired_indices : list string) : gset string :=
  list_to_set desired_indices
    ∖ list_to_set (leading_keys (list_indexes s collection)).

(** The tasks it puts on the queue for one entry of the configuration. *)
Definition index_tasks (me : Engine) (s : store)
    (entry : string * list string) : list Task :=
  mk_index_update (resolve_collection me entry.1)
    <$> elements (missing_indices s (resolve_collection me entry.1) entry.2).

(** [matches[protocol][sample_id]], empty when it is not there. *)
Definition bucket (m : gmap string (gmap string (list Document)))
    (protocol sample_id : string) : list Document :=
  default [] (default ∅ (m !! protocol) !! sample_id).

(** A computation that talks to the store and logs, and leaves the queue,
    the acknowledgments, the loop and the resources of the engine
    alone. *)
Definition quiet {A} (m : M A) : Prop :=
  ∀ w w' r,
    m w = (w', r) →
    task_q w' = task_q w ∧ acks w' = acks w
    ∧ loop_stopped w' = loop_stopped w
    ∧ resources_released w' = resources_released w.

(** The world in which the [try] block of a handler starts, after the
    [log.info] that [debug] switches on. *)
Definition announced (me : Engine) (msg : LogMsg) (w : World) : World :=
  (when (debug me) (log_info msg) w).1.

(** A computation that leaves an observation of the world as it found
    it, whether it returns or raises. *)
Definition preserves {A X} (f : World → X) (m : M A) : Prop :=
  ∀ w w' r, m w = (w', r) → f w' = f w.

(** The books of the queue: the unfinished tasks and the acknowledgments
    given, less the items that wait.  A [put_nowait] and a [task_done]
    both leave it as it is. *)
Definition queue_balance (w : World) : Z :=
  (Z.of_nat (q_unfinished (task_q w)) + Z.of_nat (acks w)
   - Z.of_nat (length (q_items (task_q w))))%Z.

(** [w'] holds all that [w] held: the queue, the log and the buckets of
    [matches] have at most been appended to, the counters have not gone
    down, and a loop that was stopped and resources that were released
    stay so. *)
Definition grown (w w' : World) : Prop :=
  q_items (task_q w) `prefix_of` q_items (task_q w')
  ∧ log w `prefix_of` log w'
  ∧ (acks w ≤ acks w')%nat
  ∧ (queue_task_count w ≤ queue_task_count w')%Z
  ∧ (∀ p s, bucket (matches w) p s `prefix_of` bucket (matches w') p s)
  ∧ (loop_stopped w = true → loop_stopped w' = true)
  ∧ (resources_released w = true → resources_released w' = true).

Definition growing {A} (m : M A) : Prop :=
  ∀ w w' r, m w = (w', r) → grown w w'.

(** The store answers the requests for the indexes of the collections
    of [entries] with keyed descriptors. *)
Definition listable_on (me : Engine) (w : World)
    (entries : list (string * list string)) : bool :=
  forallb (λ entry : string * list string,
             keyed (list_indexes (db w) (resolve_collection me entry.1)))
    entries.

End Engine.

(** ** A store in memory

    A small implementation of [StoreClient], [Payloads] and [Matcher] on
    which the handlers run from start to end. *)

#[export] Instance pyval_eq_dec : EqDecision pyval.
Proof. solve_decision. Defined.

Record MemStore := {
  ms_indexes : gmap string (list IndexDoc);
  ms_docs : gmap string (list Document)
}.

Definition mem_field (f : string) (d : Document) : option string :=
  match d !! f with
  | Some (VStr x) => Some x
  | _ => None
  end.

Definition mem_distinct (s : MemStore) (c f : string) : list string :=
  remove_dups (omap (mem_field f) (default [] (ms_docs s !! c))).

Definition mem_has_index (k : string) (ixs : list IndexDoc) : bool :=
  bool_decide (Exists (λ ix, fst <$> ix_key ix = [k]) ixs).

Definition mem_create_index (s : MemStore) (c k : string) : MemStore :=
  let ixs := default [] (ms_indexes s !! c) in
  if mem_has_index k ixs then s
  else {| ms_indexes :=
            <[c := ixs ++ [{| ix_name := k +:+ "_1"; ix_key := [(k, 1%Z)] |}]]>
              (ms_indexes s);
          ms_docs := ms_docs s |}.

Definition mem_insert (s : MemStore) (c : string) (d : Document) : MemStore :=
  {| ms_indexes := ms_indexes s;
     ms_docs := <[c := default [] (ms_docs s !! c) ++ [d]]> (ms_docs s) |}.

(** A document matches a filter document when it agrees with it on every
    field of the filter. *)
Definition mem_matches (filter d : Document) : bool :=
  bool_decide (filter ⊆ d).

Fixpoint mem_update_first (filter update : Document) (ds : list Document)
    : option (list Document) :=
  match ds with
  | [] => None
  | d :: ds' =>
      if mem_matches filter d then Some ((update ∪ d) :: ds')
      else cons d <$> mem_update_first filter update ds'
  end.

Fixpoint mem_delete_first (filter : Document) (ds : list Document)
    : list Document :=
  match ds with
  | [] => []
  | d :: ds' =>
      if mem_matches filter d then ds' else d :: mem_delete_first filter ds'
  end.

Definition mem_apply (c : string) (s : MemStore) (op : WriteOp) : MemStore :=
  match op with
  | InsertOne d => mem_insert s c d
  | UpdateOne filter update upsert =>
      let ds := default [] (ms_docs s !! c) in
      match mem_update_first filter update ds with
      | Some ds' =>
          {| ms_indexes := ms_indexes s; ms_docs := <[c := ds']> (ms_docs s) |}
      | None => if upsert then mem_insert s c (update ∪ filter) else s
      end
  | DeleteOne filter =>
      {| ms_indexes := ms_indexes s;
         ms_docs := <[c := mem_delete_first filter
                              (default [] (ms_docs s !! c))]> (ms_docs s) |}
  end.

Definition mem_push (u : PushUpdate) (d : Document) : Document :=
  match d !! push_field u with
  | Some (VList l) => <[push_field u := VList (l ++ [push_value u])]> d
  | Some (VStr _) => d
  | None => <[push_field u := VList [push_value u]]> d
  end.

Definition mem_update_many (s : MemStore) (c : string) (f : InFilter)
    (u : PushUpdate) : MemStore :=
  let hit d :=
    match mem_field (flt_field f) d with
    | Some x => bool_decide (x ∈ flt_in f)
    | None => false
    end in
  {| ms_indexes := ms_indexes s;
     ms_docs := <[c := (λ d, if hit d then mem_push u d else d)
                         <$> default [] (ms_docs s !! c)]> (ms_docs s) |}.

#[export] Instance mem_store_client : StoreClient := {|
  store := MemStore;
  list_indexes s c := default [] (ms_indexes s !! c);
  distinct := mem_distinct;
  create_index := mem_create_index;
  bulk_write s c ops := foldl (mem_apply c) s ops;
  insert_one := mem_insert;
  update_many := mem_update_many
|}.

(** Payloads as plain strings; a match reason is the sample it names. *)
#[export] Instance string_payloads : Payloads := {|
  Query := string;
  MatchClauseData := string;
  MatchPath := string;
  MatchReason := string
|}.

(** A matcher that finds one reason for each clinical id asked for, and
    that cannot convert the reason ["broken"]. *)
#[export] Instance sample_matcher : Matcher := {|
  query_reasons _ _ clinical_ids := clinical_ids;
  create_trial_matches tm :=
    if decide (tm_match_reason tm = "broken")
    then Raise (Exn RuntimeError "cannot convert")
    else Ok (<["sample_id" := VStr (tm_match_reason tm)]>
               (<["protocol_no" := VStr (protocol_no (tm_trial tm))]> ∅))
|}.

(** ** Sample runs *)

(** An engine whose configuration asks for the index [mrn] on [patient],
    and that has a run log to write for the trial [P001] and its two
    clinical ids. *)
Definition sample_engine : Engine := {|
  debug := true;
  config_indices := [("patient", ["mrn"])];
  trial_match_collection := "trial_match_test";
  run_id_hex := "9f3c";
  starttime := 1572566400;
  run_log_entries := {["P001" := {["protocol_no" := VStr "P001"]}]};
  clinical_run_log_entries := {["P001" := {["c1"; "c2"]}]}
|}.

(** A store without indexes, with a ledger document for [c1]. *)
Definition sample_store : MemStore := {|
  ms_indexes := ∅;
  ms_docs :=
    {["clinical_run_history_trial_match_test" :=
        [<["clinical_id" := VStr "c1"]>
           (<["run_history" := VList ["17aa"]]> ∅)]]}
|}.

(** A store whose [patient] collection has the default index and a
    compound index with [mrn] as its second key. *)
Definition compound_store : MemStore := {|
  ms_indexes :=
    {["patient" :=
        [{| ix_name := "_id_"; ix_key := [("_id", 1%Z)] |};
         {| ix_name := "last_name_1_mrn_1";
            ix_key := [("last_name", 1%Z); ("mrn", 1%Z)] |}]]};
  ms_docs := ∅
|}.

(** A worker holds one task; the queue is empty. *)
Definition sample_world (s : MemStore) (fs : list (option exn)) : World := {|
  task_q := {| q_items := []; q_unfinished := 1 |};
  acks := 0;
  queue_task_count := 0;
  matches := ∅;
  db := s;
  faults := fs;
  loop_stopped := false;
  resources_released := false;
  log := []
|}.

Definition sample_update : UpdateTask := {|
  ut_ops := [InsertOne {["sample_id" := VStr "s1"]};
             DeleteOne {["sample_id" := VStr "s0"]}];
  ut_protocol_no := "P001"
|}.

Definition sample_run_log_update : RunLogUpdateTask :=
  {| rlt_protocol_no := "P001" |}.

Definition sample_query (clinical_ids : list string) : QueryTask := {|
  qt_trial := {| protocol_no := "P001"; trial_body := ∅ |};
  qt_match_clause_data := "arm 1";
  qt_match_path := "0";
  qt_query := "BRAF V600E";
  qt_clinical_ids := clinical_ids
|}.

Definition connection_lost : exn := Exn AutoReconnect "connection closed".

Definition cursor_expired : exn := Exn CursorNotFound "cursor id not found".

Definition not_authorized : exn := Exn OperationFailure "not authorized".

(** The sample tasks run by worker 1, the store failing as the schedule
    says. *)
Definition update_run (fs : list (option exn)) : World * result unit :=
  run_update_task sample_engine sample_update 1 (sample_world sample_store fs).

Definition run_log_update_run (fs : list (option exn))
    : World * result unit :=
  run_run_log_update_task sample_engine sample_run_log_update 1
    (sample_world sample_store fs).

Definition query_run (clinical_ids : list string) (fs : list (option exn))
    : World * result unit :=
  run_query_task sample_engine (sample_query clinical_ids) 1
    (sample_world sample_store fs).

Definition check_indices_run (s : MemStore) (fs : list (option exn))
    : World * result unit :=
  run_check_indices_task sample_engine ACheckIndicesTask 1 (sample_world s fs).

Definition index_update_run (fs : list (option exn))
    : World * result unit :=
  run_index_update_task sample_engine
    {| iut_collection := "patient"; iut_index := "mrn" |} 1
    (sample_world sample_store fs).

(** An engine configured for two collections, the second under the alias
    of the match-document collection. *)
Definition two_collection_engine : Engine := {|
  debug := false;
  config_indices := [("patient", ["mrn"; "mrn"]);
                     ("trial_match", ["protocol_no"])];
  trial_match_collection := "trial_match_test";
  run_id_hex := "9f3c";
  starttime := 1572566400;
  run_log_entries := {["P001" := {["protocol_no" := VStr "P001"]}]};
  clinical_run_log_entries := ∅
|}.

(** A store whose [patient] collection has an index on [mrn]. *)
Definition indexed_store : MemStore := {|
  ms_indexes :=
    {["patient" := [{| ix_name := "mrn_1"; ix_key := [("mrn", 1%Z)] |}]]};
  ms_docs := ∅
|}.

(** The match document [sample_matcher] makes of a reason. *)
Definition sample_document (reason : string) : Document :=
  <["sample_id" := VStr reason]> (<["protocol_no" := VStr "P001"]> ∅).

(** * Properties of the handlers *)

Section Handlers.
Context {P : Payloads} {SC : StoreClient} {MT : Matcher}.
Implicit Types (me : Engine) (w : World) (e : exn) (worker_id : Z).

(** Unfolds the monad and the primitive effects, and computes the fields
    of the worlds that come out. *)
Ltac run_handler :=
  cbv [mbind mret M_bind M_ret bind ret raise modify get_world
       try_except try_finally when log_caught log_info log_error
       put_nowait task_done qsize loop_stop engine_exit store_call
       take_fault getitem lift_result announced
       with_task_q with_acks with_queue_task_count with_matches with_db
       with_faults with_loop_stopped with_resources_released with_log];
  cbn [task_q acks queue_task_count matches db faults loop_stopped
       resources_released log q_items q_unfinished fst snd head tail mjoin
       option_join].

Ltac run_handler_in H :=
  cbv [mbind mret M_bind M_ret bind ret raise modify get_world
       try_except try_finally when log_caught log_info log_error
       put_nowait task_done qsize loop_stop engine_exit store_call
       take_fault getitem lift_result announced
       with_task_q with_acks with_queue_task_count with_matches with_db
       with_faults with_loop_stopped with_resources_released with_log] in H;
  cbn [task_q acks queue_task_count matches db faults loop_stopped
       resources_released log q_items q_unfinished fst snd head tail mjoin
       option_join] in H.

Ltac outstanding_task H :=
  apply bool_decide_eq_true in H; cbn in H;
  match type of H with
  | 0 < ?n => destruct n; [lia | clear H]
  end.

Lemma cursor_not_found_is_not_reconnect e :
  isinstance_CursorNotFound e = true → isinstance_AutoReconnect e = false.
Proof.
  unfold isinstance_CursorNotFound, isinstance_AutoReconnect.
  by destruct (exn_cls e).
Qed.

(** ** The update handler *)

(** C8: [run_update_task] submits the operations of its task whole, in
    one [bulk_write] on the match-document collection of the run; a task
    without operations is refused by the client, and the refusal is
    raised.  When the write fails with an [AutoReconnect], the same task
    is put back on the queue and the handler returns.  Every other
    failure is raised to the caller, the handler having neither stopped
    the loop nor released the resources of the engine; a
    [CursorNotFound], transient though it is for the classifier, is one
    of them: it is raised and the task is not put back. *)
Theorem update_task_raises_what_is_not_a_reconnect
    me (task : UpdateTask) worker_id w :
  outstanding w = true →
  let (w', r) := run_update_task me task worker_id w in
  match next_fault w with
  | None =>
      q_items (task_q w') = q_items (task_q w)
      ∧ loop_stopped w' = loop_stopped w
      ∧ match ut_ops task with
        | [] =>
            r = Raise (Exn InvalidOperation "No operations to execute")
            ∧ db w' = db w
        | _ :: _ =>
            r = Ok tt
            ∧ db w'
              = bulk_write (db w) (trial_match_collection me) (ut_ops task)
        end
  | Some e =>
      db w' = db w
      ∧ loop_stopped w' = loop_stopped w
      ∧ resources_released w' = resources_released w
      ∧ (if isinstance_AutoReconnect e
         then r = Ok tt
              ∧ q_items (task_q w')
                = q_items (task_q w) ++ [AnUpdateTask task]
         else r = Raise e
              ∧ q_items (task_q w') = q_items (task_q w))
      ∧ (isinstance_CursorNotFound e = true →
         transient_store e = true
         ∧ r = Raise e
         ∧ q_items (task_q w') = q_items (task_q w))
  end.
Proof.
  destruct w as [[items n] a c m d fs st rel lg].
  unfold outstanding, next_fault, run_update_task, update_body,
    db_bulk_write.
  intros Hn. outstanding_task Hn.
  destruct (debug me), fs as [|[e|] fs]; run_handler;
    try (destruct (ut_ops task); run_handler; split_and!; reflexivity).
  all: destruct (isinstance_AutoReconnect e) eqn:Hre; run_handler;
    split_and!; try reflexivity.
  all: intros Hcur;
    pose proof (cursor_not_found_is_not_reconnect e Hcur) as Hnot;
    try congruence.
  all: unfold transient_store; rewrite Hcur, orb_true_r;
    split_and!; reflexivity.
Qed.

(** ** Acknowledgments on the retry paths *)

(** C1: on their retry paths [run_update_task], [run_run_log_update_task]
    and [run_query_task] call [task_done] twice for the one task they were
    given: the count of acknowledgments grows by two, and the queue is left
    holding the task that was put back with one unfinished task fewer than
    before the handler ran. *)
Theorem retry_paths_acknowledge_twice
    me (ut : UpdateTask) (rt : RunLogUpdateTask) (qt : QueryTask)
    worker_id w e fs summary :
  outstanding w = true →
  faults w = Some e :: fs →
  isinstance_AutoReconnect e = true →
  run_log_entries me !! rlt_protocol_no rt = Some summary →
  (let (w', r) := run_update_task me ut worker_id w in
   r = Ok tt
   ∧ acks w' = 2 + acks w
   ∧ q_items (task_q w') = q_items (task_q w) ++ [AnUpdateTask ut]
   ∧ S (q_unfinished (task_q w')) = q_unfinished (task_q w))
  ∧ (let (w', r) := run_run_log_update_task me rt worker_id w in
     r = Ok tt
     ∧ acks w' = 2 + acks w
     ∧ q_items (task_q w') = q_items (task_q w) ++ [ARunLogUpdateTask rt]
     ∧ S (q_unfinished (task_q w')) = q_unfinished (task_q w))
  ∧ (let (w', r) := run_query_task me qt worker_id w in
     r = Ok tt
     ∧ acks w' = 2 + acks w
     ∧ q_items (task_q w') = q_items (task_q w) ++ [AQueryTask qt]
     ∧ S (q_unfinished (task_q w')) = q_unfinished (task_q w)).
Proof.
  destruct w as [[items n] a c m d fs0 st rel lg].
  intros Hn Hfs He Hsummary. cbn in Hfs. subst fs0.
  outstanding_task Hn.
  repeat split.
  - unfold run_update_task, update_body, db_bulk_write.
    destruct (debug me); run_handler; rewrite He; run_handler; auto.
  - unfold run_run_log_update_task, run_log_update_body,
      gather_distinct_insert.
    destruct (debug me), fs as [|[e'|] fs]; run_handler;
      rewrite Hsummary; run_handler; rewrite He; run_handler; auto.
  - unfold run_query_task, announce_query_task, query_phase,
      aggregation_phase, run_query.
    run_handler. rewrite He. run_handler. cbn. auto.
Qed.

(** ** Cursor expiry in the update and run-log handlers *)

(** C2: a [CursorNotFound] is transient for the classifier, yet
    [run_update_task] and [run_run_log_update_task] do not put the task
    back when a store call fails with it: they raise it to the caller and
    leave the queue as it was. *)
Theorem cursor_expiry_propagates_from_update_and_run_log
    me (ut : UpdateTask) (rt : RunLogUpdateTask) worker_id w e fs summary :
  outstanding w = true →
  faults w = Some e :: fs →
  isinstance_CursorNotFound e = true →
  run_log_entries me !! rlt_protocol_no rt = Some summary →
  transient_store e = true
  ∧ (let (w', r) := run_update_task me ut worker_id w in
     r = Raise e ∧ q_items (task_q w') = q_items (task_q w))
  ∧ (let (w', r) := run_run_log_update_task me rt worker_id w in
     r = Raise e ∧ q_items (task_q w') = q_items (task_q w)).
Proof.
  destruct w as [[items n] a c m d fs0 st rel lg].
  intros Hn Hfs He Hsummary. cbn in Hfs. subst fs0.
  outstanding_task Hn.
  pose proof (cursor_not_found_is_not_reconnect e He) as Hnot.
  repeat split.
  - unfold transient_store. rewrite He. apply orb_true_r.
  - unfold run_update_task, update_body, db_bulk_write.
    destruct (debug me); run_handler; rewrite Hnot; run_handler; auto.
  - unfold run_run_log_update_task, run_log_update_body,
      gather_distinct_insert.
    destruct (debug me), fs as [|[e'|] fs]; run_handler;
      rewrite Hsummary; run_handler; rewrite Hnot; run_handler; auto.
Qed.

(** ** The query handler *)

Lemma bucket_append_match protocol sample_id doc
    (m : gmap string (gmap string (list Document))) p s :
  bucket (append_match protocol sample_id doc m) p s
  = bucket m p s
    ++ (if decide (p = protocol ∧ s = sample_id) then [doc] else []).
Proof.
  unfold bucket, append_match.
  destruct (decide (p = protocol)) as [->|Hp].
  - rewrite lookup_insert_eq. cbn.
    destruct (decide (s = sample_id)) as [->|Hs].
    + rewrite lookup_insert_eq. cbn.
      by rewrite decide_True.
    + rewrite lookup_insert_ne by done.
      rewrite decide_False by tauto. by rewrite app_nil_r.
  - rewrite lookup_insert_ne by done.
    rewrite decide_False by tauto. by rewrite app_nil_r.
Qed.

(** What one turn of the aggregation loop does. *)
Lemma aggregate_result_unfold me (task : QueryTask) (res : MatchReason) w :
  ∃ lg,
    let w1 := with_log lg
                (with_queue_task_count (queue_task_count w + 1) w) in
    aggregate_result me task res w
    = match create_trial_matches (mk_trial_match me task res) with
      | Raise e => (w1, Raise e)
      | Ok doc =>
          match doc !! "sample_id" with
          | None => (w1, Raise (Exn KeyError "sample_id"))
          | Some (VList _) =>
              (w1, Raise (Exn TypeError "unhashable type: 'list'"))
          | Some (VStr sample_id) =>
              (with_matches
                 (append_match (protocol_no (qt_trial task)) sample_id doc
                    (matches w)) w1, Ok tt)
          end
      end.
Proof.
  destruct w as [q a c m d fs st rel lg].
  unfold aggregate_result, as_key. run_handler.
  destruct (bool_decide _); run_handler;
    (eexists; destruct (create_trial_matches _) as [doc|e]; run_handler;
     [destruct (doc !! "sample_id") as [[sample_id|l]|]|];
     run_handler; reflexivity).
Qed.

(** The aggregation loop touches only the counter, [matches] and the
    log. *)
Lemma aggregation_keeps_control me (task : QueryTask) results w w' r :
  for_each results (aggregate_result me task) w = (w', r) →
  task_q w' = task_q w ∧ acks w' = acks w ∧ db w' = db w
  ∧ faults w' = faults w ∧ loop_stopped w' = loop_stopped w
  ∧ resources_released w' = resources_released w.
Proof.
  revert w. induction results as [|res results IH]; intros w Hrun.
  - by inversion Hrun.
  - cbn [for_each] in Hrun. cbv [mbind M_bind bind] in Hrun.
    destruct (aggregate_result_unfold me task res w) as [lg Hone].
    cbv zeta in Hone. rewrite Hone in Hrun. clear Hone.
    destruct (create_trial_matches _) as [doc|e];
      [destruct (doc !! "sample_id") as [[sample_id|l]|]|];
      try (by inversion Hrun).
    apply IH in Hrun. by destruct w.
Qed.

(** C7: when the query fails with a transient error, [run_query_task]
    appends nothing to [matches], does not touch the progress counter,
    and puts the task it was given back on the queue as it is. *)
Theorem query_retry_leaves_matches_and_requeues
    me (task : QueryTask) worker_id w e fs :
  faults w = Some e :: fs →
  transient_store e = true →
  let (w', r) := run_query_task me task worker_id w in
  matches w' = matches w
  ∧ queue_task_count w' = queue_task_count w
  ∧ db w' = db w
  ∧ q_items (task_q w') = q_items (task_q w) ++ [AQueryTask task].
Proof.
  destruct w as [[items n] a c m d fs0 st rel lg].
  intros Hfs He. cbn in Hfs. subst fs0.
  unfold transient_store in He.
  unfold run_query_task, announce_query_task, query_phase,
    aggregation_phase, run_query.
  run_handler.
  destruct (isinstance_AutoReconnect e); [|cbn in He; rewrite He];
    run_handler; destruct n; cbn; auto.
Qed.

(** C3: a query that fails with an error that is not transient makes
    [run_query_task] stop the loop and log the error; the handler then
    aggregates an empty list of results, so [matches] and the counter
    stay as they are, and it returns without raising.  An error raised
    while the results are aggregated makes it stop the loop, log the
    error and raise that error to the caller. *)
Theorem query_fatal_errors
    me (task : QueryTask) worker_id w :
  (∀ e fs,
     outstanding w = true →
     faults w = Some e :: fs →
     transient_store e = false →
     let (w', r) := run_query_task me task worker_id w in
     r = Ok tt
     ∧ loop_stopped w' = true
     ∧ (ERROR, MsgError worker_id e) ∈ log w'
     ∧ matches w' = matches w
     ∧ queue_task_count w' = queue_task_count w
     ∧ q_items (task_q w') = q_items (task_q w))
  ∧ (∀ w1 results w2 e,
       query_phase me task worker_id
         (announce_query_task task worker_id w).1 = (w1, Ok results) →
       for_each results (aggregate_result me task) w1 = (w2, Raise e) →
       let (w', r) := run_query_task me task worker_id w in
       r = Raise e
       ∧ loop_stopped w' = true
       ∧ (ERROR, MsgError worker_id e) ∈ log w'
       ∧ acks w' = acks w1).
Proof.
  split.
  - destruct w as [[items n] a c m d fs0 st rel lg].
    intros e fs Hn Hfs He. cbn in Hfs. subst fs0.
    outstanding_task Hn.
    apply orb_false_elim in He as [Hre Hcur].
    unfold run_query_task, announce_query_task, query_phase,
      aggregation_phase, run_query.
    run_handler. rewrite Hre, Hcur. run_handler. cbn.
    repeat split; auto. set_solver.
  - intros w1 results w2 e Hquery Hagg.
    unfold run_query_task, aggregation_phase.
    unfold announce_query_task in *.
    run_handler_in Hquery. run_handler.
    rewrite Hquery, Hagg. cbn.
    repeat split; auto; [set_solver|].
    by apply aggregation_keeps_control in Hagg as (_ & -> & _).
Qed.

(** The aggregation loop only moves the counter up and only appends to
    the buckets of [matches]. *)
Lemma aggregation_grows me (task : QueryTask) results w w' r :
  for_each results (aggregate_result me task) w = (w', r) →
  (queue_task_count w ≤ queue_task_count w')%Z
  ∧ ∀ p s, bucket (matches w) p s `prefix_of` bucket (matches w') p s.
Proof.
  revert w. induction results as [|res results IH]; intros w Hrun.
  - by inversion Hrun.
  - cbn [for_each] in Hrun. cbv [mbind M_bind bind] in Hrun.
    destruct (aggregate_result_unfold me task res w) as [lg Hone].
    cbv zeta in Hone. rewrite Hone in Hrun. clear Hone.
    destruct (create_trial_matches _) as [doc|e];
      [destruct (doc !! "sample_id") as [[sample_id|l]|]|];
      try (inversion Hrun; subst; destruct w; cbn; split; [lia|done]).
    apply IH in Hrun as [Hcount Hbuckets].
    destruct w as [q a c m d fs st rel lg0]. cbn in *.
    split; [lia|]. intros p s.
    etrans; [|apply Hbuckets].
    rewrite bucket_append_match. by apply prefix_app_r.
Qed.

(** When every reason converts to a document with a sample id, the loop
    runs to its end: one increment and one append for each reason, in the
    order of the reasons. *)
Lemma aggregation_appends_all me (task : QueryTask) results
    (docs : list (Document * string)) w :
  mapM (converted me task) results = Some docs →
  ∃ w',
    for_each results (aggregate_result me task) w = (w', Ok tt)
    ∧ queue_task_count w' = (queue_task_count w + Z.of_nat (length results))%Z
    ∧ ∀ p s,
        bucket (matches w') p s
        = bucket (matches w) p s
          ++ (if decide (p = protocol_no (qt_trial task))
              then (filter (λ d, d.2 = s) docs).*1 else []).
Proof.
  intros Hdocs%mapM_Some. revert w.
  induction Hdocs as [|res [doc sample_id] results docs Hconv _ IH];
    intros w.
  - exists w. repeat split; cbn; [lia|].
    intros p s. case_decide; by rewrite app_nil_r.
  - cbn [for_each]. cbv [mbind M_bind bind].
    destruct (aggregate_result_unfold me task res w) as [lg Hone].
    cbv zeta in Hone. rewrite Hone. clear Hone.
    unfold converted in Hconv.
    destruct (create_trial_matches _) as [doc'|]; [|done].
    destruct (doc' !! "sample_id") as [[sample_id'|]|]; try done.
    injection Hconv as -> ->.
    edestruct IH as (w' & -> & Hcount & Hbuckets).
    exists w'. split; [done|].
    destruct w as [q a c m d fs st rel lg0]. cbn in *.
    split; [lia|]. intros p s.
    rewrite Hbuckets, bucket_append_match, <-(assoc_L (++)). f_equal.
    repeat case_decide; destruct_and?; subst; try done; tauto.
Qed.

(** The first [try] leaves [matches] and the counter alone. *)
Lemma query_phase_keeps_matches me (task : QueryTask) worker_id w w' r :
  query_phase me task worker_id w = (w', r) →
  matches w' = matches w ∧ queue_task_count w' = queue_task_count w.
Proof.
  destruct w as [[items n] a c m d fs st rel lg].
  unfold query_phase, run_query. run_handler.
  destruct fs as [|[e|] fs]; run_handler;
    try (by intros [= <- <-]).
  destruct (isinstance_AutoReconnect e), (isinstance_CursorNotFound e),
    n; run_handler; by intros [= <- <-].
Qed.

(** C6: when the query yields its reasons and each of them converts to a
    match document that names its sample, [run_query_task] moves the
    progress counter up by one for each document, so by the number of
    reasons in all, and the bucket of every sample of the trial ends as
    what it held before followed by the new documents of that sample in
    the order the reasons came; every other bucket is as it was.  On
    every run of the handler, whatever its outcome, the counter does not
    go down and every bucket keeps what it held as a prefix. *)
Theorem query_task_counts_and_appends
    me (task : QueryTask) worker_id w :
  (let (w', r) := run_query_task me task worker_id w in
   (queue_task_count w ≤ queue_task_count w')%Z
   ∧ ∀ p s, bucket (matches w) p s `prefix_of` bucket (matches w') p s)
  ∧ (∀ docs : list (Document * string),
       next_fault w = None →
       mapM (converted me task)
         (query_reasons (db w) (qt_query task) (qt_clinical_ids task))
       = Some docs →
       let (w', r) := run_query_task me task worker_id w in
       queue_task_count w'
       = (queue_task_count w
          + Z.of_nat (length (query_reasons (db w) (qt_query task)
                                (qt_clinical_ids task))))%Z
       ∧ ∀ p s,
           bucket (matches w') p s
           = bucket (matches w) p s
             ++ (if decide (p = protocol_no (qt_trial task))
                 then (filter (λ d, d.2 = s) docs).*1 else [])).
Proof.
  split.
  - unfold run_query_task, announce_query_task. run_handler.
    destruct (query_phase _ _ _ _) as [w1 [results|e]] eqn:Hquery;
      apply query_phase_keeps_matches in Hquery as [Hm Hc];
      cbn in Hm, Hc; [|by rewrite Hm, Hc].
    unfold aggregation_phase. run_handler.
    destruct (for_each _ _ _) as [w2 [[]|e]] eqn:Hagg;
      apply aggregation_grows in Hagg as [Hcount Hbuckets];
      rewrite Hm in Hbuckets; rewrite Hc in Hcount.
    + by destruct (q_unfinished (task_q w2)).
    + done.
  - intros docs Hcalm Hdocs.
    destruct w as [[items n] a c m d fs st rel lg].
    unfold next_fault in Hcalm. cbn in Hcalm, Hdocs.
    unfold run_query_task, announce_query_task, query_phase, run_query,
      aggregation_phase.
    run_handler. rewrite Hcalm. run_handler.
    edestruct (λ w, aggregation_appends_all me task _ docs w Hdocs) as
      (w' & -> & Hcount & Hbuckets).
    cbn in Hcount, Hbuckets.
    by destruct (q_unfinished (task_q w')).
Qed.

(** ** The index audit *)

Lemma calm_next w :
  calm w = true →
  next_fault w = None ∧ calm (with_faults (tail (faults w)) w) = true.
Proof.
  unfold calm, next_fault. destruct w as [q a c m d fs st rel lg]. cbn.
  destruct fs as [|[e|] fs]; cbn; auto. discriminate.
Qed.

Lemma elem_of_leading_keys name (indices : list IndexDoc) :
  name ∈ leading_keys indices
  ↔ ∃ ix direction rest,
      ix ∈ indices ∧ ix_key ix = (name, direction) :: rest.
Proof.
  unfold leading_keys. rewrite list_elem_of_omap. split.
  - intros (ix & Hix & Hhead).
    destruct (ix_key ix) as [|[k direction] rest] eqn:Hkey; [done|].
    cbn in Hhead. injection Hhead as ->. eauto.
  - intros (ix & direction & rest & Hix & Hkey).
    exists ix. by rewrite Hkey.
Qed.

(** The loop over the existing indexes collects their first keys. *)
Lemma existing_index_keys_collects (indices : list IndexDoc) w :
  keyed indices = true →
  existing_index_keys indices w
  = (w, Ok (list_to_set (leading_keys indices))).
Proof.
  unfold existing_index_keys.
  rewrite <-(left_id_L ∅ (∪) (list_to_set (leading_keys indices))).
  generalize (∅ : gset string).
  induction indices as [|ix indices IH]; intros acc Hkeyed.
  - cbn. by rewrite (right_id_L ∅ (∪)).
  - cbn in Hkeyed. unfold leading_keys. cbn. unfold first_key.
    destruct (ix_key ix) as [|[k direction] rest]; [done|].
    run_handler. cbn. rewrite IH by done.
    by rewrite (assoc_L (∪)).
Qed.

Lemma enqueue_index_tasks collection (names : list string) w :
  for_each names (λ index, put_nowait (mk_index_update collection index)) w
  = (with_task_q
       {| q_items := q_items (task_q w)
                     ++ (mk_index_update collection <$> names);
          q_unfinished := q_unfinished (task_q w) + length names |} w,
     Ok tt).
Proof.
  revert w. induction names as [|name names IH]; intros w.
  - destruct w as [[items n] a c m d fs st rel lg]. cbn.
    unfold with_task_q. cbn. by rewrite app_nil_r, Nat.add_0_r.
  - cbn [for_each]. run_handler. rewrite IH.
    destruct w as [[items n] a c m d fs st rel lg]. cbn.
    unfold with_task_q. cbn.
    by rewrite <-(assoc_L (++)), Nat.add_succ_r.
Qed.

Lemma check_collection_enqueues me (entry : string * list string) w :
  next_fault w = None →
  keyed (list_indexes (db w) (resolve_collection me entry.1)) = true →
  check_collection me entry w
  = (with_task_q
       {| q_items := q_items (task_q w) ++ index_tasks me (db w) entry;
          q_unfinished := q_unfinished (task_q w)
                          + length (index_tasks me (db w) entry) |}
       (with_faults (tail (faults w)) w),
     Ok tt).
Proof.
  intros Hcalm Hkeyed.
  unfold check_collection, db_list_indexes, next_fault in *.
  cbv [mbind mret M_bind M_ret bind ret get_world store_call take_fault].
  rewrite Hcalm. cbn [db with_faults].
  rewrite existing_index_keys_collects by done.
  rewrite enqueue_index_tasks. cbn.
  unfold index_tasks, missing_indices. by rewrite length_fmap.
Qed.

(** A calm store lets the loop over the configuration run to its end. *)
Lemma check_all_collections me (cfg : list (string * list string)) w :
  calm w = true →
  (∀ entry, entry ∈ cfg →
     keyed (list_indexes (db w) (resolve_collection me entry.1)) = true) →
  ∃ w',
    for_each cfg (check_collection me) w = (w', Ok tt)
    ∧ q_items (task_q w')
      = q_items (task_q w) ++ flat_map (index_tasks me (db w)) cfg
    ∧ q_unfinished (task_q w') ≥ q_unfinished (task_q w)
    ∧ db w' = db w ∧ acks w' = acks w
    ∧ loop_stopped w' = loop_stopped w
    ∧ resources_released w' = resources_released w.
Proof.
  revert w. induction cfg as [|entry cfg IH]; intros w Hcalm Hkeyed.
  - exists w. cbn. rewrite app_nil_r. repeat split; auto.
  - cbn [for_each]. cbv [mbind M_bind bind].
    apply calm_next in Hcalm as [Hnext Hcalm].
    rewrite check_collection_enqueues by (done || (apply Hkeyed; left)).
    edestruct IH as (w' & -> & Hitems & Hn & Hdb & Hacks & Hstop & Hrel).
    { destruct w; exact Hcalm. }
    { intros entry' Hin. destruct w; cbn. apply Hkeyed. by right. }
    exists w'. split; [done|].
    destruct w as [[items n] a c m d fs st rel lg]. cbn in *.
    rewrite Hitems, <-(assoc_L (++)). repeat split; auto. lia.
Qed.

(** The handler on a calm store. *)
Lemma check_indices_succeeds me (task : Task) worker_id w :
  calm w = true →
  outstanding w = true →
  listable me w = true →
  ∃ w',
    run_check_indices_task me task worker_id w = (w', Ok tt)
    ∧ q_items (task_q w')
      = q_items (task_q w)
        ++ flat_map (index_tasks me (db w)) (config_indices me)
    ∧ db w' = db w ∧ acks w' = S (acks w)
    ∧ loop_stopped w' = loop_stopped w
    ∧ resources_released w' = resources_released w.
Proof.
  intros Hcalm Hn Hkeyed.
  assert (∀ entry, entry ∈ config_indices me →
            keyed (list_indexes (db w) (resolve_collection me entry.1))
            = true) as Hkeyed'.
  { intros entry Hin%list_elem_of_In.
    unfold listable in Hkeyed. rewrite forallb_forall in Hkeyed. auto. }
  clear Hkeyed. rename Hkeyed' into Hkeyed.
  unfold run_check_indices_task, check_indices_body.
  cbv [mbind M_bind bind try_except].
  set (w0 := announced me (MsgGotCheckIndices worker_id) w).
  assert (when (debug me) (log_info (MsgGotCheckIndices worker_id)) w
          = (w0, Ok tt)) as -> by (subst w0; unfold announced;
                                   by destruct (debug me)).
  assert (calm w0 = true ∧ db w0 = db w ∧ task_q w0 = task_q w
          ∧ acks w0 = acks w ∧ loop_stopped w0 = loop_stopped w
          ∧ resources_released w0 = resources_released w)
    as (Hcalm0 & Hdb0 & Hq0 & Hacks0 & Hstop0 & Hrel0)
    by (subst w0; unfold announced; destruct (debug me), w; done).
  edestruct (check_all_collections me (config_indices me) w0)
    as (w1 & -> & Hitems & Hn1 & Hdb & Hacks & Hstop & Hrel);
    [done|by rewrite Hdb0|].
  rewrite Hdb0, Hq0 in *. rewrite Hacks0 in Hacks.
  rewrite Hstop0 in Hstop. rewrite Hrel0 in Hrel.
  apply bool_decide_eq_true in Hn.
  unfold task_done.
  destruct (q_unfinished (task_q w1)) as [|n1] eqn:Hn1'; [lia|].
  eexists. split; [done|].
  destruct w1. cbn in *. by rewrite Hacks.
Qed.

(** C4: for every entry of the configured indexes,
    [run_check_indices_task] takes the match-document collection of the
    run when the entry is named ["trial_match"], lists the indexes the
    store has on the collection and puts one [IndexUpdateTask] on the
    queue for each desired name that is not among the key names it found
    for them, each such name once; the store is left as it was. *)
Theorem check_indices_enqueues_the_missing
    me (task : Task) worker_id w :
  calm w = true →
  outstanding w = true →
  listable me w = true →
  (resolve_collection me "trial_match" = trial_match_collection me
   ∧ ∀ collection, collection ≠ "trial_match" →
       resolve_collection me collection = collection)
  ∧ (let (w', r) := run_check_indices_task me task worker_id w in
     r = Ok tt
     ∧ db w' = db w
     ∧ q_items (task_q w')
       = q_items (task_q w)
         ++ flat_map (index_tasks me (db w)) (config_indices me))
  ∧ ∀ entry,
      ∃ names,
        index_tasks me (db w) entry
        = mk_index_update (resolve_collection me entry.1) <$> names
        ∧ NoDup names
        ∧ ∀ name,
            name ∈ names
            ↔ name ∈ entry.2
              ∧ name ∉ leading_keys
                         (list_indexes (db w)
                            (resolve_collection me entry.1)).
Proof.
  intros Hcalm Hn Hkeyed. split; [|split].
  - unfold resolve_collection. split; [done|].
    intros collection Hne. by rewrite decide_False.
  - destruct (check_indices_succeeds me task worker_id w Hcalm Hn Hkeyed)
      as (w' & -> & Hitems & Hdb & _).
    auto.
  - intros entry. eexists. split; [reflexivity|].
    split; [apply NoDup_elements|].
    intros name. unfold missing_indices.
    rewrite elem_of_elements, elem_of_difference, !elem_of_list_to_set.
    done.
Qed.

(** C10: the keys [run_check_indices_task] takes as existing are the
    first keys of the key documents of the indexes and no other.  So a
    desired name that the indexes of the collection hold only behind
    their first key, as it is with a later key of a compound index, is
    found missing, and an [IndexUpdateTask] for it is put on the queue. *)
Theorem check_indices_sees_leading_keys_only
    me (task : Task) worker_id w :
  (∀ indices : list IndexDoc,
     keyed indices = true →
     ∃ existing : gset string,
       existing_index_keys indices w = (w, Ok existing)
       ∧ ∀ name,
           name ∈ existing
           ↔ ∃ ix direction rest,
               ix ∈ indices ∧ ix_key ix = (name, direction) :: rest)
  ∧ (∀ collection desired name ix,
       calm w = true →
       outstanding w = true →
       listable me w = true →
       (collection, desired) ∈ config_indices me →
       name ∈ desired →
       ix ∈ list_indexes (db w) (resolve_collection me collection) →
       name ∈ (tail (ix_key ix)).*1 →
       name ∉ leading_keys
                (list_indexes (db w) (resolve_collection me collection)) →
       let (w', r) := run_check_indices_task me task worker_id w in
       r = Ok tt
       ∧ mk_index_update (resolve_collection me collection) name
         ∈ q_items (task_q w')).
Proof.
  split.
  - intros indices Hkeyed. eexists.
    split; [by apply existing_index_keys_collects|].
    intros name. by rewrite elem_of_list_to_set, elem_of_leading_keys.
  - intros collection desired name ix Hcalm Hn Hkeyed Hentry Hname _ _
      Hleading.
    destruct (check_indices_succeeds me task worker_id w Hcalm Hn Hkeyed)
      as (w' & -> & -> & _).
    split; [done|].
    apply elem_of_app. right.
    apply list_elem_of_In, in_flat_map.
    exists (collection, desired). split; [by apply list_elem_of_In|].
    apply list_elem_of_In. unfold index_tasks, missing_indices. cbn.
    apply list_elem_of_fmap_2.
    rewrite elem_of_elements, elem_of_difference, !elem_of_list_to_set.
    done.
Qed.

(** ** Computations that leave the queue and the loop alone *)

Lemma quiet_ret {A} (a : A) : quiet (mret a).
Proof. by intros w w' r [= <- <-]. Qed.

Lemma quiet_raise {A} e : quiet (raise (A:=A) e).
Proof. by intros w w' r [= <- <-]. Qed.

Lemma quiet_bind {A B} (m : M A) (k : A → M B) :
  quiet m → (∀ a, quiet (k a)) → quiet (m ≫= k).
Proof.
  intros Hm Hk w w' r. cbv [mbind M_bind bind].
  destruct (m w) as [w1 [a|e]] eqn:Hrun; apply Hm in Hrun.
  - intros Hrun'%Hk. destruct_and!. repeat split; congruence.
  - by intros [= <- <-].
Qed.

Lemma quiet_get_world : quiet get_world.
Proof. by intros w w' r [= <- <-]. Qed.

Lemma quiet_take_fault : quiet take_fault.
Proof. intros w w' r [= <- <-]. by destruct w. Qed.

Lemma quiet_store_call : quiet store_call.
Proof.
  apply quiet_bind; [apply quiet_take_fault|].
  intros [e|]; [apply quiet_raise|apply quiet_ret].
Qed.

Lemma quiet_log level msg :
  quiet (modify (λ w, with_log (log w ++ [(level, msg)]) w)).
Proof. intros w w' r [= <- <-]. by destruct w. Qed.

Lemma quiet_announce (b : bool) msg : quiet (when b (log_info msg)).
Proof. destruct b; [apply quiet_log|apply quiet_ret]. Qed.

Lemma quiet_getitem {V} (d : gmap string V) k : quiet (getitem d k).
Proof.
  unfold getitem. destruct (d !! k); [apply quiet_ret|apply quiet_raise].
Qed.

Ltac quiet_step :=
  first [ apply quiet_bind; [|intros ?]
        | apply quiet_ret | apply quiet_raise | apply quiet_announce
        | apply quiet_store_call | apply quiet_take_fault
        | apply quiet_get_world | apply quiet_getitem
        | (intros [] ? ? [= <- <-]; done)
        | case_match ].

Lemma quiet_update_body me (task : UpdateTask) worker_id :
  quiet (update_body me task worker_id).
Proof. unfold update_body, db_bulk_write. repeat quiet_step. Qed.

Lemma quiet_run_log_update_body me (task : RunLogUpdateTask) worker_id :
  quiet (run_log_update_body me task worker_id).
Proof.
  unfold run_log_update_body, gather_distinct_insert, db_bulk_write,
    db_update_many.
  repeat quiet_step.
Qed.

(** ** Fatal failures *)

Lemma when_announced me msg w :
  when (debug me) (log_info msg) w = (announced me msg w, Ok tt).
Proof. unfold announced. by destruct (debug me). Qed.

(** C9, amended: a failure that is not transient makes
    [run_check_indices_task] release the resources of the engine, stop the
    loop and raise the failure; it makes [run_index_update_task] stop the
    loop and return; a failure of that kind in the query, and any failure
    in the aggregation, makes [run_query_task] stop the loop, and the
    handler returns in the first case and raises the failure in the
    second.  [run_update_task] and [run_run_log_update_task] raise a
    failure they do not retry and, themselves, neither stop the loop nor
    release anything. *)
Theorem fatal_failures_by_handler me worker_id :
  (∀ (task : Task) w w1 e,
     check_indices_body me (announced me (MsgGotCheckIndices worker_id) w)
     = (w1, Raise e) →
     transient_store e = false →
     let (w', r) := run_check_indices_task me task worker_id w in
     r = Raise e ∧ loop_stopped w' = true ∧ resources_released w' = true)
  ∧ (∀ (task : IndexUpdateTask) w w1 e,
       index_update_body task
         (announced me (MsgGotIndexUpdate worker_id (iut_index task)
                          (iut_collection task)) w)
       = (w1, Raise e) →
       transient_store e = false →
       let (w', r) := run_index_update_task me task worker_id w in
       r = Ok tt ∧ loop_stopped w' = true)
  ∧ (∀ (task : QueryTask) w e fs,
       faults w = Some e :: fs →
       transient_store e = false →
       let (w', r) := run_query_task me task worker_id w in
       loop_stopped w' = true ∧ (outstanding w = true → r = Ok tt))
  ∧ (∀ (task : QueryTask) w w1 results w2 e,
       query_phase me task worker_id
         (announce_query_task task worker_id w).1 = (w1, Ok results) →
       for_each results (aggregate_result me task) w1 = (w2, Raise e) →
       let (w', r) := run_query_task me task worker_id w in
       r = Raise e ∧ loop_stopped w' = true)
  ∧ (∀ (task : UpdateTask) w w1 e,
       update_body me task worker_id w = (w1, Raise e) →
       isinstance_AutoReconnect e = false →
       outstanding w = true →
       let (w', r) := run_update_task me task worker_id w in
       r = Raise e
       ∧ loop_stopped w' = loop_stopped w
       ∧ resources_released w' = resources_released w)
  ∧ (∀ (task : RunLogUpdateTask) w w1 e,
       run_log_update_body me task worker_id w = (w1, Raise e) →
       isinstance_AutoReconnect e = false →
       outstanding w = true →
       let (w', r) := run_run_log_update_task me task worker_id w in
       r = Raise e
       ∧ loop_stopped w' = loop_stopped w
       ∧ resources_released w' = resources_released w).
Proof.
  repeat apply conj.
  - intros task w w1 e Hbody [Hre Hcur]%orb_false_elim.
    unfold run_check_indices_task. cbv [mbind M_bind bind try_except].
    rewrite when_announced, Hbody. run_handler.
    rewrite Hre, Hcur. by run_handler.
  - intros task w w1 e Hbody [Hre Hcur]%orb_false_elim.
    unfold run_index_update_task. cbv [mbind M_bind bind try_except].
    rewrite when_announced, Hbody. run_handler.
    rewrite Hre, Hcur. by run_handler.
  - intros task [[items n] a c m d fs0 st rel lg] e fs Hfs
      [Hre Hcur]%orb_false_elim.
    cbn in Hfs. subst fs0.
    unfold run_query_task, announce_query_task, query_phase,
      aggregation_phase, run_query.
    run_handler. rewrite Hre, Hcur. run_handler.
    destruct n; cbn; split; auto.
    intros Hn%bool_decide_eq_true. cbn in Hn. lia.
  - intros task w w1 results w2 e Hquery Hagg.
    unfold run_query_task, aggregation_phase.
    unfold announce_query_task in *.
    run_handler_in Hquery. run_handler.
    by rewrite Hquery, Hagg.
  - intros task w w1 e Hbody He Hn.
    destruct (quiet_update_body _ _ _ _ _ _ Hbody) as (Hq & _ & Hs & Hr).
    unfold run_update_task. cbv [try_finally try_except].
    rewrite Hbody. run_handler. rewrite He. run_handler.
    rewrite Hq. destruct w as [[items n] a c m d fs st rel lg].
    outstanding_task Hn. by cbn in *.
  - intros task w w1 e Hbody He Hn.
    destruct (quiet_run_log_update_body _ _ _ _ _ _ Hbody)
      as (Hq & _ & Hs & Hr).
    unfold run_run_log_update_task. cbv [try_finally try_except].
    rewrite Hbody. run_handler. rewrite He. run_handler.
    rewrite Hq. destruct w as [[items n] a c m d fs st rel lg].
    outstanding_task Hn. by cbn in *.
Qed.

(** ** The run-log handler *)


(** ** What the handlers leave as it is *)

Section Preserved.
Context {X : Type} (f : World → X).

Lemma preserves_ret {A} (a : A) : preserves f (mret a).
Proof. by intros w w' r [= <- <-]. Qed.

Lemma preserves_raise {A} e : preserves f (raise (A:=A) e).
Proof. by intros w w' r [= <- <-]. Qed.

Lemma preserves_get_world : preserves f get_world.
Proof. by intros w w' r [= <- <-]. Qed.

Lemma preserves_qsize : preserves f qsize.
Proof. by intros w w' r [= <- <-]. Qed.

Lemma preserves_bind {A B} (m : M A) (k : A → M B) :
  preserves f m → (∀ a, preserves f (k a)) → preserves f (m ≫= k).
Proof.
  intros Hm Hk w w' r. cbv [mbind M_bind bind].
  destruct (m w) as [w1 [a|e]] eqn:Hrun; apply Hm in Hrun.
  - intros Hrun'%Hk. congruence.
  - intros [= <- <-]. done.
Qed.

Lemma preserves_try_except {A} (m : M A) (h : exn → M A) :
  preserves f m → (∀ e, preserves f (h e)) → preserves f (try_except m h).
Proof.
  intros Hm Hh w w' r. unfold try_except.
  destruct (m w) as [w1 [a|e]] eqn:Hrun; apply Hm in Hrun.
  - intros [= <- <-]. done.
  - intros Hrun'%Hh. congruence.
Qed.

Lemma preserves_try_finally {A} (m : M A) (fin : M unit) :
  preserves f m → preserves f fin → preserves f (try_finally m fin).
Proof.
  intros Hm Hfin w w' r. unfold try_finally.
  destruct (m w) as [w1 r1] eqn:Hrun. apply Hm in Hrun.
  destruct (fin w1) as [w2 [[]|e]] eqn:Hrun'; apply Hfin in Hrun';
    intros [= <- <-]; congruence.
Qed.

Lemma preserves_for_each {A} (l : list A) (body : A → M unit) :
  (∀ x, preserves f (body x)) → preserves f (for_each l body).
Proof.
  intros Hbody. induction l as [|x l IH]; cbn [for_each].
  - apply preserves_ret.
  - apply preserves_bind; auto.
Qed.

Lemma preserves_fold_each {A B} (l : list A) (acc : B)
    (body : B → A → M B) :
  (∀ b x, preserves f (body b x)) → preserves f (fold_each l acc body).
Proof.
  intros Hbody. revert acc. induction l as [|x l IH]; intros acc;
    cbn [fold_each].
  - apply preserves_ret.
  - apply preserves_bind; auto.
Qed.

Lemma preserves_when (b : bool) (m : M unit) :
  preserves f m → preserves f (when b m).
Proof. destruct b; [done|]. intros _. apply preserves_ret. Qed.

Lemma preserves_getitem {V} (d : gmap string V) k : preserves f (getitem d k).
Proof.
  unfold getitem.
  destruct (d !! k); [apply preserves_ret|apply preserves_raise].
Qed.

Lemma preserves_lift_result {A} (r : result A) : preserves f (lift_result r).
Proof. destruct r; [apply preserves_ret|apply preserves_raise]. Qed.

Lemma preserves_as_key v : preserves f (as_key v).
Proof. destruct v; [apply preserves_ret|apply preserves_raise]. Qed.

Lemma preserves_modify (g : World → World) :
  (∀ w, f (g w) = f w) → preserves f (modify g).
Proof. intros Hg w w' r [= <- <-]. apply Hg. Qed.

End Preserved.

(** One step through the structure of a handler; [leaf] is for the
    effects that change the world. *)
Ltac preserves_step leaf :=
  first [ apply preserves_bind; [|intros ?]
        | apply preserves_try_except; [|intros ?]
        | apply preserves_try_finally
        | apply preserves_for_each; intros ?
        | apply preserves_fold_each; intros ? ?
        | apply preserves_when
        | apply preserves_ret | apply preserves_raise
        | apply preserves_get_world | apply preserves_qsize
        | apply preserves_getitem | apply preserves_lift_result
        | apply preserves_as_key
        | leaf
        | case_match ].

Ltac unfold_handlers :=
  unfold run_check_indices_task, check_indices_body, check_collection,
    existing_index_keys, first_key, run_index_update_task,
    index_update_body, run_query_task, announce_query_task, query_phase,
    aggregation_phase, aggregate_result, run_query, run_poison_pill,
    run_update_task, update_body, run_run_log_update_task,
    run_log_update_body, gather_distinct_insert, db_list_indexes,
    db_create_index, db_bulk_write, db_update_many, store_call,
    log_caught, log_info, log_error, put_nowait, loop_stop, engine_exit.

Lemma task_done_keeps_balance : preserves queue_balance task_done.
Proof.
  intros [[items [|n]] a c m d fs st rel lg] w' r; unfold task_done; cbn;
    intros [= <- <-]; [done|].
  unfold queue_balance, with_acks, with_task_q.
  cbn [task_q acks q_items q_unfinished]. lia.
Qed.

Ltac balance_leaf :=
  first [ apply task_done_keeps_balance
        | apply preserves_modify; intros [[? ?] ? ? ? ? ? ? ? ?];
          unfold queue_balance, with_task_q, with_acks, with_log, with_db,
            with_faults, with_loop_stopped, with_resources_released,
            with_matches, with_queue_task_count;
          cbn [task_q acks q_items q_unfinished];
          rewrite ?length_app; cbn [length]; lia
        | (intros [[? ?] ? ? ? ? ? ? ? ?] ? ?; unfold take_fault;
           intros [= <- <-]; done) ].

(** X1: whatever a handler does and however it ends, the count of
    unfinished tasks has moved only by what the handler itself put on the
    queue and acknowledged: unfinished tasks plus acknowledgments less
    waiting items is the same after the handler as before. *)
Theorem handlers_keep_the_queue_books me worker_id :
  (∀ task : Task,
     preserves queue_balance (run_check_indices_task me task worker_id))
  ∧ (∀ task : IndexUpdateTask,
       preserves queue_balance (run_index_update_task me task worker_id))
  ∧ (∀ task : QueryTask,
       preserves queue_balance (run_query_task me task worker_id))
  ∧ (∀ task : Task,
       preserves queue_balance (run_poison_pill me task worker_id))
  ∧ (∀ task : UpdateTask,
       preserves queue_balance (run_update_task me task worker_id))
  ∧ (∀ task : RunLogUpdateTask,
       preserves queue_balance (run_run_log_update_task me task worker_id)).
Proof.
  repeat split; intros task; unfold_handlers;
    repeat preserves_step balance_leaf.
Qed.

Ltac frame_leaf :=
  first [ apply preserves_modify; intros [[? ?] ? ? ? ? ? ? ? ?]; reflexivity
        | (intros [[? [|?]] ? ? ? ? ? ? ? ?] ? ?;
           cbv [task_done take_fault]; cbn; intros [= <- <-]; reflexivity) ].

(** X2: [run_check_indices_task], [run_query_task] and [run_poison_pill]
    send the store no write: on every path, also the failing ones, the
    store is after the handler what it was before. *)
Theorem audit_query_and_pill_leave_the_store me worker_id :
  (∀ task : Task, preserves db (run_check_indices_task me task worker_id))
  ∧ (∀ task : QueryTask, preserves db (run_query_task me task worker_id))
  ∧ (∀ task : Task, preserves db (run_poison_pill me task worker_id)).
Proof.
  repeat split; intros task; unfold_handlers;
    repeat preserves_step frame_leaf.
Qed.

(** X3: [matches] and the progress counter belong to [run_query_task]:
    none of the other five handlers changes either, on any path. *)
Theorem only_the_query_handler_aggregates me worker_id :
  let aggregate w := (matches w, queue_task_count w) in
  (∀ task : Task,
     preserves aggregate (run_check_indices_task me task worker_id))
  ∧ (∀ task : IndexUpdateTask,
       preserves aggregate (run_index_update_task me task worker_id))
  ∧ (∀ task : Task,
       preserves aggregate (run_poison_pill me task worker_id))
  ∧ (∀ task : UpdateTask,
       preserves aggregate (run_update_task me task worker_id))
  ∧ (∀ task : RunLogUpdateTask,
       preserves aggregate (run_run_log_update_task me task worker_id)).
Proof.
  repeat split; intros task; unfold_handlers;
    repeat preserves_step frame_leaf.
Qed.

(** X4: [run_update_task], [run_run_log_update_task] and
    [run_poison_pill] hold no call that stops the loop or releases the
    resources of the engine: both flags are after the handler what they
    were before, on every path. *)
Theorem update_run_log_and_pill_never_stop_the_loop me worker_id :
  let flags w := (loop_stopped w, resources_released w) in
  (∀ task : UpdateTask,
     preserves flags (run_update_task me task worker_id))
  ∧ (∀ task : RunLogUpdateTask,
       preserves flags (run_run_log_update_task me task worker_id))
  ∧ (∀ task : Task, preserves flags (run_poison_pill me task worker_id)).
Proof.
  repeat split; intros task; unfold_handlers;
    repeat preserves_step frame_leaf.
Qed.

(** ** What the handlers only add to *)

Lemma grown_refl w : grown w w.
Proof. unfold grown. split_and!; done. Qed.

Lemma grown_trans w1 w2 w3 : grown w1 w2 → grown w2 w3 → grown w1 w3.
Proof.
  intros (Hq & Hl & Ha & Hc & Hb & Hs & Hr) (Hq' & Hl' & Ha' & Hc' & Hb'
                                              & Hs' & Hr').
  unfold grown. split_and!.
  - by trans (q_items (task_q w2)).
  - by trans (log w2).
  - lia.
  - lia.
  - intros p s. by trans (bucket (matches w2) p s).
  - auto.
  - auto.
Qed.

Lemma growing_ret {A} (a : A) : growing (mret a).
Proof. intros w w' r [= <- <-]. apply grown_refl. Qed.

Lemma growing_raise {A} e : growing (raise (A:=A) e).
Proof. intros w w' r [= <- <-]. apply grown_refl. Qed.

Lemma growing_get_world : growing get_world.
Proof. intros w w' r [= <- <-]. apply grown_refl. Qed.

Lemma growing_qsize : growing qsize.
Proof. intros w w' r [= <- <-]. apply grown_refl. Qed.

Lemma growing_bind {A B} (m : M A) (k : A → M B) :
  growing m → (∀ a, growing (k a)) → growing (m ≫= k).
Proof.
  intros Hm Hk w w' r. cbv [mbind M_bind bind].
  destruct (m w) as [w1 [a|e]] eqn:Hrun; apply Hm in Hrun.
  - intros Hrun'%Hk. by eapply grown_trans.
  - by intros [= <- <-].
Qed.

Lemma growing_try_except {A} (m : M A) (h : exn → M A) :
  growing m → (∀ e, growing (h e)) → growing (try_except m h).
Proof.
  intros Hm Hh w w' r. unfold try_except.
  destruct (m w) as [w1 [a|e]] eqn:Hrun; apply Hm in Hrun.
  - by intros [= <- <-].
  - intros Hrun'%Hh. by eapply grown_trans.
Qed.

Lemma growing_try_finally {A} (m : M A) (fin : M unit) :
  growing m → growing fin → growing (try_finally m fin).
Proof.
  intros Hm Hfin w w' r. unfold try_finally.
  destruct (m w) as [w1 r1] eqn:Hrun. apply Hm in Hrun.
  destruct (fin w1) as [w2 [[]|e]] eqn:Hrun'; apply Hfin in Hrun';
    intros [= <- <-]; by eapply grown_trans.
Qed.

Lemma growing_for_each {A} (l : list A) (body : A → M unit) :
  (∀ x, growing (body x)) → growing (for_each l body).
Proof.
  intros Hbody. induction l as [|x l IH]; cbn [for_each].
  - apply growing_ret.
  - apply growing_bind; auto.
Qed.

Lemma growing_fold_each {A B} (l : list A) (acc : B) (body : B → A → M B) :
  (∀ b x, growing (body b x)) → growing (fold_each l acc body).
Proof.
  intros Hbody. revert acc. induction l as [|x l IH]; intros acc;
    cbn [fold_each].
  - apply growing_ret.
  - apply growing_bind; auto.
Qed.

Lemma growing_when (b : bool) (m : M unit) : growing m → growing (when b m).
Proof. destruct b; [done|]. intros _. apply growing_ret. Qed.

Lemma growing_getitem {V} (d : gmap string V) k : growing (getitem d k).
Proof.
  unfold getitem. destruct (d !! k); [apply growing_ret|apply growing_raise].
Qed.

Lemma growing_lift_result {A} (r : result A) : growing (lift_result r).
Proof. destruct r; [apply growing_ret|apply growing_raise]. Qed.

Lemma growing_as_key v : growing (as_key v).
Proof. destruct v; [apply growing_ret|apply growing_raise]. Qed.

Lemma growing_modify (g : World → World) :
  (∀ w, grown w (g w)) → growing (modify g).
Proof. intros Hg w w' r [= <- <-]. apply Hg. Qed.

Lemma growing_task_done : growing task_done.
Proof.
  intros [[items [|n]] a c m d fs st rel lg] w' r; unfold task_done; cbn;
    intros [= <- <-]; [apply grown_refl|].
  unfold grown. cbn. split_and!; first [done | lia | auto].
Qed.

Lemma growing_take_fault : growing take_fault.
Proof.
  intros [q a c m d fs st rel lg] w' r [= <- <-].
  unfold grown. cbn. split_and!; first [done | lia | auto].
Qed.

Lemma growing_append_match protocol sample_id doc :
  growing (modify (λ w, with_matches
                          (append_match protocol sample_id doc (matches w))
                          w)).
Proof.
  apply growing_modify. intros [q a c m d fs st rel lg].
  unfold grown. cbn. split_and!; first [done | lia | auto].
  intros p s. rewrite bucket_append_match. by apply prefix_app_r.
Qed.

Ltac growing_leaf :=
  first [ apply growing_task_done | apply growing_take_fault
        | apply growing_append_match
        | apply growing_modify; intros [[? ?] ? ? ? ? ? ? ? ?];
          unfold grown; cbn; split_and!;
          first [ done | by apply prefix_app_r | lia | auto ] ].

Ltac growing_step :=
  first [ apply growing_bind; [|intros ?]
        | apply growing_try_except; [|intros ?]
        | apply growing_try_finally
        | apply growing_for_each; intros ?
        | apply growing_fold_each; intros ? ?
        | apply growing_when
        | apply growing_ret | apply growing_raise
        | apply growing_get_world | apply growing_qsize
        | apply growing_getitem | apply growing_lift_result
        | apply growing_as_key
        | growing_leaf
        | case_match ].

(** X5: no handler takes anything back.  However a handler ends, the
    queue it leaves starts with the items that waited, the log with the
    lines that were there, and every bucket of [matches] with the
    documents it held; the acknowledgments and the progress counter have
    not gone down; and a loop that was stopped, or resources that were
    released, are still so. *)
Theorem handlers_only_add me worker_id :
  (∀ task : Task, growing (run_check_indices_task me task worker_id))
  ∧ (∀ task : IndexUpdateTask,
       growing (run_index_update_task me task worker_id))
  ∧ (∀ task : QueryTask, growing (run_query_task me task worker_id))
  ∧ (∀ task : Task, growing (run_poison_pill me task worker_id))
  ∧ (∀ task : UpdateTask, growing (run_update_task me task worker_id))
  ∧ (∀ task : RunLogUpdateTask,
       growing (run_run_log_update_task me task worker_id)).
Proof.
  split_and!; intros task; unfold_handlers; repeat growing_step.
Qed.

(** ** The index-update handler *)

(** X6: [run_index_update_task] asks the store for the one index of its
    task.  When the store answers, the index is created and the task
    acknowledged.  When the call fails with an [AutoReconnect] or a
    [CursorNotFound], the task is put back once and acknowledged once, so
    the count of unfinished tasks is what it was.  On any other failure
    the loop is stopped and the handler returns without an
    acknowledgment and without raising. *)
Theorem index_update_outcomes me (task : IndexUpdateTask) worker_id w :
  outstanding w = true →
  let (w', r) := run_index_update_task me task worker_id w in
  r = Ok tt
  ∧ match next_fault w with
    | None =>
        db w' = create_index (db w) (iut_collection task) (iut_index task)
        ∧ q_items (task_q w') = q_items (task_q w)
        ∧ acks w' = S (acks w)
        ∧ S (q_unfinished (task_q w')) = q_unfinished (task_q w)
        ∧ loop_stopped w' = loop_stopped w
    | Some e =>
        db w' = db w
        ∧ if transient_store e
          then q_items (task_q w')
               = q_items (task_q w) ++ [AnIndexUpdateTask task]
               ∧ acks w' = S (acks w)
               ∧ q_unfinished (task_q w') = q_unfinished (task_q w)
               ∧ loop_stopped w' = loop_stopped w
          else q_items (task_q w') = q_items (task_q w)
               ∧ acks w' = acks w
               ∧ q_unfinished (task_q w') = q_unfinished (task_q w)
               ∧ loop_stopped w' = true
    end.
Proof.
  destruct w as [[items n] a c m d fs st rel lg].
  unfold outstanding, next_fault, transient_store, run_index_update_task,
    index_update_body, db_create_index.
  intros Hn. outstanding_task Hn.
  destruct (debug me), fs as [|[e|] fs]; run_handler;
    try (split_and!; reflexivity);
    destruct (isinstance_AutoReconnect e), (isinstance_CursorNotFound e);
    run_handler; cbn [orb]; split_and!; reflexivity.
Qed.

(** ** Acknowledgment in the [finally] blocks *)

(** X7: when the [try] block of [run_update_task] or of
    [run_run_log_update_task] returns, or raises an error that is not an
    [AutoReconnect], the handler ends the way the block did and the
    [finally] block has acknowledged the task once; the queue holds the
    items it held. *)
Theorem finally_acknowledges_once me worker_id :
  (∀ (task : UpdateTask) w w1 r1,
     outstanding w = true →
     update_body me task worker_id w = (w1, r1) →
     (∀ e, r1 = Raise e → isinstance_AutoReconnect e = false) →
     let (w', r) := run_update_task me task worker_id w in
     r = r1
     ∧ acks w' = S (acks w)
     ∧ S (q_unfinished (task_q w')) = q_unfinished (task_q w)
     ∧ q_items (task_q w') = q_items (task_q w)
     ∧ db w' = db w1)
  ∧ (∀ (task : RunLogUpdateTask) w w1 r1,
       outstanding w = true →
       run_log_update_body me task worker_id w = (w1, r1) →
       (∀ e, r1 = Raise e → isinstance_AutoReconnect e = false) →
       let (w', r) := run_run_log_update_task me task worker_id w in
       r = r1
       ∧ acks w' = S (acks w)
       ∧ S (q_unfinished (task_q w')) = q_unfinished (task_q w)
       ∧ q_items (task_q w') = q_items (task_q w)
       ∧ db w' = db w1).
Proof.
  split.
  - intros task w w1 r1 Hn Hbody Hfatal.
    destruct (quiet_update_body _ _ _ _ _ _ Hbody) as (Hq & Ha & _).
    unfold run_update_task. cbv [try_finally try_except]. rewrite Hbody.
    destruct w as [[items n] a c m d fs st rel lg]. outstanding_task Hn.
    destruct w1 as [q1 a1 c1 m1 d1 fs1 st1 rel1 lg1]. cbn in Hq, Ha.
    subst q1 a1. destruct r1 as [[]|e]; run_handler; [done|].
    rewrite (Hfatal e eq_refl). by run_handler.
  - intros task w w1 r1 Hn Hbody Hfatal.
    destruct (quiet_run_log_update_body _ _ _ _ _ _ Hbody) as (Hq & Ha & _).
    unfold run_run_log_update_task. cbv [try_finally try_except].
    rewrite Hbody.
    destruct w as [[items n] a c m d fs st rel lg]. outstanding_task Hn.
    destruct w1 as [q1 a1 c1 m1 d1 fs1 st1 rel1 lg1]. cbn in Hq, Ha.
    subst q1 a1. destruct r1 as [[]|e]; run_handler; [done|].
    rewrite (Hfatal e eq_refl). by run_handler.
Qed.

(** ** An index audit that fails on its way *)

Lemma for_each_app {A} (l1 l2 : list A) (body : A → M unit) w w1 :
  for_each l1 body w = (w1, Ok tt) →
  for_each (l1 ++ l2) body w = for_each l2 body w1.
Proof.
  revert w. induction l1 as [|x l1 IH]; intros w; cbn [for_each app].
  - by intros [= ->].
  - cbv [mbind M_bind bind]. destruct (body x w) as [w0 [[]|e]]; [|done].
    apply IH.
Qed.

Lemma for_each_raises {A} (x : A) (l : list A) (body : A → M unit) w w1 e :
  body x w = (w1, Raise e) → for_each (x :: l) body w = (w1, Raise e).
Proof. intros Hx. cbn [for_each]. cbv [mbind M_bind bind]. by rewrite Hx. Qed.

(** The collections the store answers for are gone through one store
    call each. *)
Lemma check_collections_prefix me (cfg : list (string * list string)) w fs :
  faults w = replicate (length cfg) None ++ fs →
  listable_on me w cfg = true →
  for_each cfg (check_collection me) w
  = (with_task_q
       {| q_items := q_items (task_q w)
                     ++ flat_map (index_tasks me (db w)) cfg;
          q_unfinished := q_unfinished (task_q w)
                          + length (flat_map (index_tasks me (db w)) cfg) |}
       (with_faults fs w),
     Ok tt).
Proof.
  revert w. induction cfg as [|entry cfg IH]; intros w Hfs Hkeyed.
  - destruct w as [[items n] a c m d fs0 st rel lg]. cbn in *. subst fs0.
    unfold with_task_q. cbn. by rewrite app_nil_r, Nat.add_0_r.
  - cbn [for_each]. cbv [mbind M_bind bind].
    cbn in Hkeyed. apply andb_true_iff in Hkeyed as [Hentry Hkeyed].
    rewrite check_collection_enqueues;
      [|by unfold next_fault; rewrite Hfs|done].
    rewrite IH.
    + destruct w as [[items n] a c m d fs0 st rel lg]. cbn in *.
      unfold with_task_q, with_faults. cbn.
      by rewrite length_app, <-(assoc_L (++)), Nat.add_assoc.
    + destruct w. cbn in *. by rewrite Hfs.
    + by destruct w.
Qed.

Lemma check_collection_fails me (entry : string * list string) w e fs :
  faults w = Some e :: fs →
  check_collection me entry w = (with_faults fs w, Raise e).
Proof.
  intros Hfs. unfold check_collection, db_list_indexes.
  run_handler. by rewrite Hfs.
Qed.

(** X8: when the request for the indexes of a configured collection
    fails, the tasks [run_check_indices_task] has put on the queue for
    the collections before it stay there.  After a transient failure the
    audit task follows them on the queue and is acknowledged once; after
    any other failure nothing is acknowledged, the resources are released,
    the loop is stopped and the failure is raised.  The store is as it
    was in both cases. *)
Theorem check_indices_fails_after_partial_progress
    me (task : Task) worker_id w pre entry post e fs :
  config_indices me = pre ++ entry :: post →
  faults w = replicate (length pre) None ++ Some e :: fs →
  listable_on me w pre = true →
  let (w', r) := run_check_indices_task me task worker_id w in
  db w' = db w
  ∧ if transient_store e
    then r = Ok tt
         ∧ q_items (task_q w')
           = q_items (task_q w)
             ++ flat_map (index_tasks me (db w)) pre ++ [task]
         ∧ acks w' = S (acks w)
         ∧ loop_stopped w' = loop_stopped w
         ∧ resources_released w' = resources_released w
    else r = Raise e
         ∧ q_items (task_q w')
           = q_items (task_q w) ++ flat_map (index_tasks me (db w)) pre
         ∧ acks w' = acks w
         ∧ loop_stopped w' = true
         ∧ resources_released w' = true.
Proof.
  intros Hcfg Hfs Hkeyed.
  unfold run_check_indices_task, check_indices_body.
  cbv [mbind M_bind bind try_except].
  rewrite when_announced.
  set (w0 := announced me (MsgGotCheckIndices worker_id) w).
  assert (faults w0 = faults w ∧ db w0 = db w ∧ task_q w0 = task_q w
          ∧ acks w0 = acks w ∧ loop_stopped w0 = loop_stopped w
          ∧ resources_released w0 = resources_released w)
    as (Hfs0 & Hdb0 & Hq0 & Hacks0 & Hstop0 & Hrel0)
    by (subst w0; unfold announced; destruct (debug me), w; done).
  rewrite Hcfg.
  erewrite for_each_app;
    [|apply check_collections_prefix;
      [by rewrite Hfs0, Hfs|by unfold listable_on in *; rewrite Hdb0]].
  erewrite for_each_raises; [|by apply check_collection_fails].
  unfold transient_store.
  destruct w0 as [[items0 n0] a0 c0 m0 d0 fs0 st0 rel0 lg0].
  cbn in Hfs0, Hdb0, Hq0, Hacks0, Hstop0, Hrel0.
  subst d0 a0 st0 rel0. rewrite <-Hq0. clear Hq0 Hfs0.
  run_handler.
  destruct (isinstance_AutoReconnect e), (isinstance_CursorNotFound e);
    run_handler; cbn [orb];
    rewrite ?Nat.add_succ_r, <-?(assoc_L (++)); cbn;
    split_and!; try reflexivity.
Qed.

(** ** One acknowledgment when all goes well *)

(** X9: when the store answers, [run_check_indices_task] and
    [run_query_task] return with the task acknowledged once, and so does
    [run_poison_pill], which does nothing else to the queue; called with
    no task unfinished, [run_poison_pill] raises the [ValueError] of
    [task_done]. *)
Theorem one_acknowledgment_when_all_goes_well me worker_id w :
  (∀ task : Task,
     calm w = true →
     outstanding w = true →
     listable me w = true →
     let (w', r) := run_check_indices_task me task worker_id w in
     r = Ok tt ∧ acks w' = S (acks w))
  ∧ (∀ (task : QueryTask) docs,
       next_fault w = None →
       outstanding w = true →
       mapM (converted me task)
         (query_reasons (db w) (qt_query task) (qt_clinical_ids task))
       = Some docs →
       let (w', r) := run_query_task me task worker_id w in
       r = Ok tt
       ∧ acks w' = S (acks w)
       ∧ S (q_unfinished (task_q w')) = q_unfinished (task_q w)
       ∧ q_items (task_q w') = q_items (task_q w))
  ∧ (∀ task : Task,
       let (w', r) := run_poison_pill me task worker_id w in
       q_items (task_q w') = q_items (task_q w)
       ∧ if outstanding w
         then r = Ok tt
              ∧ acks w' = S (acks w)
              ∧ S (q_unfinished (task_q w')) = q_unfinished (task_q w)
         else r = Raise (Exn ValueError "task_done() called too many times")
              ∧ acks w' = acks w).
Proof.
  split_and!.
  - intros task Hcalm Hn Hkeyed.
    destruct (check_indices_succeeds me task worker_id w Hcalm Hn Hkeyed)
      as (w' & -> & _ & _ & Hacks & _).
    done.
  - intros task docs Hcalm Hn Hdocs.
    destruct w as [[items n] a c m d fs st rel lg].
    unfold next_fault in Hcalm. cbn in Hcalm, Hdocs. outstanding_task Hn.
    unfold run_query_task, announce_query_task, query_phase, run_query,
      aggregation_phase.
    run_handler. rewrite Hcalm. run_handler.
    edestruct (λ w, aggregation_appends_all me task _ docs w Hdocs) as
      (w' & Hrun & _).
    rewrite Hrun.
    apply aggregation_keeps_control in Hrun as (Hq & Ha & _).
    cbn in Hq, Ha. rewrite Hq, Ha. by cbn.
  - intros task. destruct w as [[items [|n]] a c m d fs st rel lg];
      unfold run_poison_pill; destruct (debug me); by run_handler.
Qed.

(** ** Entries the engine does not have *)

(** X10: [run_run_log_update_task] looks the protocol number of its task
    up in two dictionaries of the engine.  When [run_log_entries] has no
    entry for it, the [KeyError] is raised to the caller with nothing
    written to the store.  When only [clinical_run_log_entries] has none,
    the [KeyError] is raised after the run-log document has been
    inserted.  In both cases the task is acknowledged once and is not put
    back. *)
Theorem run_log_update_without_entries
    me (task : RunLogUpdateTask) worker_id w :
  outstanding w = true →
  (run_log_entries me !! rlt_protocol_no task = None →
   let (w', r) := run_run_log_update_task me task worker_id w in
   r = Raise (Exn KeyError (rlt_protocol_no task))
   ∧ db w' = db w
   ∧ acks w' = S (acks w)
   ∧ q_items (task_q w') = q_items (task_q w))
  ∧ (∀ summary,
       run_log_entries me !! rlt_protocol_no task = Some summary →
       clinical_run_log_entries me !! rlt_protocol_no task = None →
       calm w = true →
       let (w', r) := run_run_log_update_task me task worker_id w in
       r = Raise (Exn KeyError (rlt_protocol_no task))
       ∧ db w' = insert_one (db w) (run_log_collection me) summary
       ∧ acks w' = S (acks w)
       ∧ q_items (task_q w') = q_items (task_q w)).
Proof.
  intros Hn. destruct w as [[items n] a c m d fs st rel lg].
  outstanding_task Hn.
  unfold run_run_log_update_task, run_log_update_body,
    gather_distinct_insert.
  split.
  - intros Hsummary.
    destruct (debug me); run_handler; rewrite Hsummary; by run_handler.
  - intros summary Hsummary Hentries Hcalm. unfold calm in Hcalm.
    destruct (debug me);
      destruct fs as [|[?|] [|[?|] fs]]; try discriminate Hcalm;
      run_handler; rewrite Hsummary; run_handler; rewrite Hentries;
      by run_handler.
Qed.

(** ** A reason that does not convert *)

(** X11: when a reason does not convert to a document that names its
    sample, [run_query_task] stops the loop and raises without an
    acknowledgment; the documents of the reasons before it stay appended
    to their buckets, and the progress counter has counted the failing
    reason too. *)
Theorem query_task_stops_at_a_bad_reason
    me (task : QueryTask) worker_id w pre bad post docs :
  next_fault w = None →
  query_reasons (db w) (qt_query task) (qt_clinical_ids task)
  = pre ++ bad :: post →
  mapM (converted me task) pre = Some docs →
  converted me task bad = None →
  let (w', r) := run_query_task me task worker_id w in
  (∃ e, r = Raise e)
  ∧ loop_stopped w' = true
  ∧ acks w' = acks w
  ∧ queue_task_count w'
    = (queue_task_count w + Z.of_nat (length pre) + 1)%Z
  ∧ ∀ p s,
      bucket (matches w') p s
      = bucket (matches w) p s
        ++ (if decide (p = protocol_no (qt_trial task))
            then (filter (λ d, d.2 = s) docs).*1 else []).
Proof.
  intros Hcalm Hreasons Hdocs Hbad.
  destruct w as [[items n] a c m d fs st rel lg].
  unfold next_fault in Hcalm. cbn in Hcalm, Hreasons.
  unfold run_query_task, announce_query_task, query_phase, run_query,
    aggregation_phase.
  run_handler. rewrite Hcalm. run_handler. rewrite Hreasons.
  edestruct (λ w, aggregation_appends_all me task _ docs w Hdocs) as
    (w1 & Hrun & Hcount & Hbuckets).
  erewrite for_each_app by exact Hrun.
  apply aggregation_keeps_control in Hrun as (_ & Hacks & _).
  cbn in Hcount, Hbuckets, Hacks.
  destruct (aggregate_result_unfold me task bad w1) as [lg1 Hone].
  cbv zeta in Hone.
  assert (∃ e, aggregate_result me task bad w1
               = (with_log lg1
                    (with_queue_task_count (queue_task_count w1 + 1) w1),
                  Raise e)) as [e Hfail].
  { rewrite Hone. unfold converted in Hbad.
    destruct (create_trial_matches _) as [doc|e]; [|by eexists].
    destruct (doc !! "sample_id") as [[sample_id|l]|]; [done| |];
      by eexists. }
  erewrite for_each_raises by exact Hfail.
  destruct w1 as [q1 a1 c1 m1 d1 fs1 st1 rel1 lg0]. cbn in *.
  split_and!; [by eexists|done|done|lia|done].
Qed.

(** ** Failures in the log *)


(** ** An audit with nothing to do *)

(** X13: when every desired index name is the first key of an index the
    collection has, [run_check_indices_task] puts nothing on the queue:
    it returns with the queue and the store as they were. *)
Theorem audit_of_an_indexed_store_enqueues_nothing
    me (task : Task) worker_id w :
  calm w = true →
  outstanding w = true →
  listable me w = true →
  (∀ entry name,
     entry ∈ config_indices me →
     name ∈ entry.2 →
     name ∈ leading_keys
              (list_indexes (db w) (resolve_collection me entry.1))) →
  let (w', r) := run_check_indices_task me task worker_id w in
  r = Ok tt
  ∧ q_items (task_q w') = q_items (task_q w)
  ∧ db w' = db w.
Proof.
  intros Hcalm Hn Hkeyed Hthere.
  destruct (check_indices_succeeds me task worker_id w Hcalm Hn Hkeyed)
    as (w' & -> & -> & -> & _).
  split_and!; [done| |done].
  rewrite <-(app_nil_r (q_items (task_q w))) at 2. f_equal.
  induction (config_indices me) as [|entry cfg IH]; [done|].
  cbn [flat_map]. rewrite IH.
  - rewrite app_nil_r. unfold index_tasks.
    replace (missing_indices _ _ _) with (∅ : gset string);
      [by rewrite elements_empty|].
    symmetry. apply set_eq. intros name. unfold missing_indices.
    rewrite elem_of_difference, !elem_of_list_to_set.
    split; [|set_solver]. intros [Hname Hmissing].
    destruct Hmissing. apply Hthere; [left|done].
  - intros entry' name Hin. apply Hthere. by right.
Qed.

End Handlers.

(** * The handlers on the sample runs *)

(** The write of [sample_update] meets an expired cursor: the error is
    raised and the task is not put back.  It meets a lost connection:
    the task is put back and nothing is raised. *)
Lemma update_task_on_expired_cursor :
  (transient_store cursor_expired = true
   ∧ (update_run [Some cursor_expired]).2 = Raise cursor_expired
   ∧ q_items (task_q (update_run [Some cursor_expired]).1) = []
   ∧ loop_stopped (update_run [Some cursor_expired]).1 = false)
  ∧ ((update_run [Some connection_lost]).2 = Ok tt
     ∧ q_items (task_q (update_run [Some connection_lost]).1)
       = [AnUpdateTask sample_update]
     ∧ db (update_run [Some connection_lost]).1 = sample_store).
Proof.
  split.
  - generalize (update_task_raises_what_is_not_a_reconnect sample_engine
                  sample_update 1
                  (sample_world sample_store [Some cursor_expired])
                  eq_refl).
    vm_compute. intros (_ & Hstop & _ & _ & Hcursor).
    destruct (Hcursor eq_refl) as (Htransient & Hraised & Hitems).
    auto.
  - generalize (update_task_raises_what_is_not_a_reconnect sample_engine
                  sample_update 1
                  (sample_world sample_store [Some connection_lost])
                  eq_refl).
    vm_compute. tauto.
Defined.

(** A lost connection: each of the three handlers acknowledges twice. *)
Lemma lost_connection_is_acknowledged_twice :
  acks (update_run [Some connection_lost]).1 = 2
  ∧ acks (run_log_update_run [Some connection_lost]).1 = 2
  ∧ acks (query_run ["s1"] [Some connection_lost]).1 = 2
  ∧ q_unfinished (task_q (update_run [Some connection_lost]).1) = 0.
Proof.
  generalize (retry_paths_acknowledge_twice sample_engine sample_update
                sample_run_log_update (sample_query ["s1"]) 1
                (sample_world sample_store [Some connection_lost])
                connection_lost [] _ eq_refl eq_refl eq_refl eq_refl).
  vm_compute. intuition congruence.
Defined.

(** The task that was put back is run again, the store now answering: the
    write goes through and the acknowledgment fails, the count of
    unfinished tasks being used up. *)
Lemma second_attempt_cannot_acknowledge :
  (run_update_task sample_engine sample_update 1
     (update_run [Some connection_lost]).1).2
  = Raise (Exn ValueError "task_done() called too many times").
Proof. vm_compute. reflexivity. Qed.

(** An expired cursor: the update and the run-log handler raise it. *)
Lemma expired_cursor_is_raised :
  transient_store cursor_expired = true
  ∧ (update_run [Some cursor_expired]).2 = Raise cursor_expired
  ∧ q_items (task_q (update_run [Some cursor_expired]).1) = []
  ∧ (run_log_update_run [Some cursor_expired]).2 = Raise cursor_expired
  ∧ q_items (task_q (run_log_update_run [Some cursor_expired]).1) = [].
Proof.
  generalize (cursor_expiry_propagates_from_update_and_run_log
                sample_engine sample_update sample_run_log_update 1
                (sample_world sample_store [Some cursor_expired])
                cursor_expired [] _ eq_refl eq_refl eq_refl eq_refl).
  vm_compute. tauto.
Defined.

(** An expired cursor in the query: nothing is appended and the task is
    back on the queue. *)
Lemma query_on_expired_cursor :
  matches (query_run ["s1"] [Some cursor_expired]).1 = ∅
  ∧ queue_task_count (query_run ["s1"] [Some cursor_expired]).1 = 0%Z
  ∧ q_items (task_q (query_run ["s1"] [Some cursor_expired]).1)
    = [AQueryTask (sample_query ["s1"])].
Proof.
  generalize (query_retry_leaves_matches_and_requeues sample_engine
                (sample_query ["s1"]) 1
                (sample_world sample_store [Some cursor_expired])
                cursor_expired [] eq_refl eq_refl).
  vm_compute. tauto.
Defined.

(** The query is refused, and a reason cannot be converted. *)
Lemma query_on_fatal_errors :
  ((query_run ["s1"] [Some not_authorized]).2 = Ok tt
   ∧ loop_stopped (query_run ["s1"] [Some not_authorized]).1 = true
   ∧ matches (query_run ["s1"] [Some not_authorized]).1 = ∅)
  ∧ ((query_run ["s1"; "broken"; "s2"] []).2
     = Raise (Exn RuntimeError "cannot convert")
     ∧ loop_stopped (query_run ["s1"; "broken"; "s2"] []).1 = true
     ∧ acks (query_run ["s1"; "broken"; "s2"] []).1 = 0).
Proof.
  pose (task := sample_query ["s1"; "broken"; "s2"]).
  pose (w := sample_world sample_store []).
  pose (w1 := (query_phase sample_engine task 1
                 (announce_query_task task 1 w).1).1).
  pose (w2 := (for_each ["s1"; "broken"; "s2"]
                 (aggregate_result sample_engine task) w1).1).
  split.
  - generalize (proj1 (query_fatal_errors sample_engine
                         (sample_query ["s1"]) 1
                         (sample_world sample_store [Some not_authorized]))
                  not_authorized [] eq_refl eq_refl eq_refl).
    vm_compute. tauto.
  - generalize (proj2 (query_fatal_errors sample_engine task 1 w)
                  w1 ["s1"; "broken"; "s2"] w2
                  (Exn RuntimeError "cannot convert") eq_refl eq_refl).
    vm_compute. tauto.
Defined.

(** Scenario A of the specification: [mrn] is desired on [patient], the
    store has no index, and one task is put on the queue. *)
Lemma check_indices_on_empty_store :
  (check_indices_run sample_store []).2 = Ok tt
  ∧ db (check_indices_run sample_store []).1 = sample_store
  ∧ q_items (task_q (check_indices_run sample_store []).1)
    = [AnIndexUpdateTask {| iut_collection := "patient";
                            iut_index := "mrn" |}].
Proof.
  destruct (check_indices_enqueues_the_missing sample_engine
              ACheckIndicesTask 1 (sample_world sample_store [])
              eq_refl eq_refl eq_refl) as (_ & Hrun & _).
  revert Hrun. vm_compute. tauto.
Defined.

(** [mrn] is the second key of a compound index on [patient]: the task
    for it is put on the queue all the same. *)
Lemma check_indices_on_compound_index :
  (check_indices_run compound_store []).2 = Ok tt
  ∧ AnIndexUpdateTask {| iut_collection := "patient"; iut_index := "mrn" |}
    ∈ q_items (task_q (check_indices_run compound_store []).1).
Proof.
  assert (("patient", ["mrn"]) ∈ config_indices sample_engine) as Hentry
    by apply list_elem_of_here.
  assert ("mrn" ∈ ["mrn"]) as Hname by apply list_elem_of_here.
  assert ({| ix_name := "last_name_1_mrn_1";
             ix_key := [("last_name", 1%Z); ("mrn", 1%Z)] |}
          ∈ list_indexes compound_store
              (resolve_collection sample_engine "patient")) as Hix
    by (vm_compute; apply list_elem_of_further, list_elem_of_here).
  assert ("mrn" ∈ (tail [("last_name", 1%Z); ("mrn", 1%Z)]).*1) as Hkey
    by apply list_elem_of_here.
  assert ("mrn" ∉ leading_keys
                    (list_indexes compound_store
                       (resolve_collection sample_engine "patient")))
    as Hleading
    by compute_done.
  generalize (proj2 (check_indices_sees_leading_keys_only sample_engine
                       ACheckIndicesTask 1 (sample_world compound_store []))
                "patient" ["mrn"] "mrn" _ eq_refl eq_refl eq_refl
                Hentry Hname Hix Hkey Hleading).
  unfold check_indices_run.
  by destruct (run_check_indices_task _ _ _ _).
Defined.


(** Three reasons, two of them for the sample [s1]. *)
Lemma query_on_three_reasons :
  queue_task_count (query_run ["s1"; "s2"; "s1"] []).1 = 3%Z
  ∧ bucket (matches (query_run ["s1"; "s2"; "s1"] []).1) "P001" "s1"
    = [sample_document "s1"; sample_document "s1"]
  ∧ bucket (matches (query_run ["s1"; "s2"; "s1"] []).1) "P001" "s2"
    = [sample_document "s2"].
Proof.
  generalize (proj2 (query_task_counts_and_appends sample_engine
                       (sample_query ["s1"; "s2"; "s1"]) 1
                       (sample_world sample_store []))
                [(sample_document "s1", "s1"); (sample_document "s2", "s2");
                 (sample_document "s1", "s1")]
                eq_refl eq_refl).
  fold (query_run ["s1"; "s2"; "s1"] []).
  destruct (query_run ["s1"; "s2"; "s1"] []) as [w' r].
  intros [Hcount Hbuckets]. cbn [fst].
  rewrite !Hbuckets. split; [exact Hcount|]. split; reflexivity.
Defined.

(** What a refused request does in each handler. *)
Lemma refused_request_by_handler :
  ((check_indices_run sample_store [Some not_authorized]).2
   = Raise not_authorized
   ∧ loop_stopped (check_indices_run sample_store [Some not_authorized]).1
     = true
   ∧ resources_released
       (check_indices_run sample_store [Some not_authorized]).1 = true)
  ∧ ((index_update_run [Some not_authorized]).2 = Ok tt
     ∧ loop_stopped (index_update_run [Some not_authorized]).1 = true)
  ∧ loop_stopped (query_run ["s1"] [Some not_authorized]).1 = true
  ∧ ((update_run [Some not_authorized]).2 = Raise not_authorized
     ∧ loop_stopped (update_run [Some not_authorized]).1 = false)
  ∧ ((run_log_update_run [Some not_authorized]).2 = Raise not_authorized
     ∧ loop_stopped (run_log_update_run [Some not_authorized]).1 = false).
Proof.
  pose (w := sample_world sample_store [Some not_authorized]).
  destruct (fatal_failures_by_handler sample_engine 1)
    as (Hcheck & Hindex & Hquery & _ & Hupdate & Hrunlog).
  split; [|split; [|split; [|split]]].
  - generalize (Hcheck ACheckIndicesTask w
                  (check_indices_body sample_engine
                     (announced sample_engine (MsgGotCheckIndices 1) w)).1
                  not_authorized eq_refl eq_refl).
    vm_compute. tauto.
  - generalize (Hindex {| iut_collection := "patient"; iut_index := "mrn" |}
                  w
                  (index_update_body
                     {| iut_collection := "patient"; iut_index := "mrn" |}
                     (announced sample_engine
                        (MsgGotIndexUpdate 1 "mrn" "patient") w)).1
                  not_authorized eq_refl eq_refl).
    vm_compute. tauto.
  - generalize (Hquery (sample_query ["s1"]) w not_authorized []
                  eq_refl eq_refl).
    vm_compute. tauto.
  - generalize (Hupdate sample_update w
                  (update_body sample_engine sample_update 1 w).1
                  not_authorized eq_refl eq_refl eq_refl).
    vm_compute. tauto.
  - generalize (Hrunlog sample_run_log_update w
                  (run_log_update_body sample_engine sample_run_log_update
                     1 w).1
                  not_authorized eq_refl eq_refl eq_refl).
    vm_compute. tauto.
Defined.

(** A refused write is not transient, and [run_update_task] raises it
    with the loop running and the resources held: the handler has not
    done both the stop and the release. *)
Lemma update_task_neither_stops_nor_releases :
  transient_store not_authorized = false
  ∧ (update_run [Some not_authorized]).2 = Raise not_authorized
  ∧ ¬ (loop_stopped (update_run [Some not_authorized]).1 = true
       ∧ resources_released (update_run [Some not_authorized]).1 = true).
Proof.
  vm_compute. split; [done|]. split; [done|]. by intros [? _].
Qed.

(** * The further properties on the sample runs *)

(** The books balance after the update task met a lost connection. *)
Lemma queue_books_after_lost_connection :
  queue_balance (update_run [Some connection_lost]).1
  = queue_balance (sample_world sample_store [Some connection_lost]).
Proof.
  destruct (handlers_keep_the_queue_books sample_engine 1)
    as (_ & _ & _ & _ & Hupdate & _).
  exact (Hupdate sample_update _ _ _ (surjective_pairing _)).
Defined.

(** The audit on the store with the compound index leaves the store. *)
Lemma store_after_audit :
  db (check_indices_run compound_store []).1 = compound_store.
Proof.
  destruct (audit_query_and_pill_leave_the_store sample_engine 1)
    as (Hcheck & _).
  change compound_store with (db (sample_world compound_store [])) at 2.
  exact (Hcheck ACheckIndicesTask _ _ _ (surjective_pairing _)).
Defined.

(** The run-log update leaves [matches] and the counter. *)
Lemma aggregate_after_run_log_update :
  (matches (run_log_update_run []).1,
   queue_task_count (run_log_update_run []).1)
  = (∅, 0%Z).
Proof.
  destruct (only_the_query_handler_aggregates sample_engine 1)
    as (_ & _ & _ & _ & Hrunlog).
  change (∅, 0%Z) with
    ((λ w, (matches w, queue_task_count w)) (sample_world sample_store [])).
  exact (Hrunlog sample_run_log_update _ _ _ (surjective_pairing _)).
Defined.

(** A refused write leaves the loop running. *)
Lemma flags_after_refused_update :
  (loop_stopped (update_run [Some not_authorized]).1,
   resources_released (update_run [Some not_authorized]).1)
  = (false, false).
Proof.
  destruct (update_run_log_and_pill_never_stop_the_loop sample_engine 1)
    as (Hupdate & _).
  change (false, false) with
    ((λ w, (loop_stopped w, resources_released w))
       (sample_world sample_store [Some not_authorized])).
  exact (Hupdate sample_update _ _ _ (surjective_pairing _)).
Defined.

(** The query with three reasons has only added to the world. *)
Lemma world_after_three_reasons :
  grown (sample_world sample_store []) (query_run ["s1"; "s2"; "s1"] []).1.
Proof.
  destruct (handlers_only_add sample_engine 1) as (_ & _ & Hquery & _).
  exact (Hquery (sample_query ["s1"; "s2"; "s1"]) _ _ _
           (surjective_pairing _)).
Defined.

(** The index update meets an expired cursor. *)
Lemma index_update_on_expired_cursor :
  (index_update_run [Some cursor_expired]).2 = Ok tt
  ∧ q_items (task_q (index_update_run [Some cursor_expired]).1)
    = [AnIndexUpdateTask {| iut_collection := "patient";
                            iut_index := "mrn" |}]
  ∧ acks (index_update_run [Some cursor_expired]).1 = 1
  ∧ q_unfinished (task_q (index_update_run [Some cursor_expired]).1) = 1.
Proof.
  generalize (index_update_outcomes sample_engine
                {| iut_collection := "patient"; iut_index := "mrn" |} 1
                (sample_world sample_store [Some cursor_expired]) eq_refl).
  vm_compute. tauto.
Defined.

(** A refused write is raised, and acknowledged in [finally]. *)
Lemma refused_update_is_acknowledged :
  (update_run [Some not_authorized]).2 = Raise not_authorized
  ∧ acks (update_run [Some not_authorized]).1 = 1.
Proof.
  pose (w := sample_world sample_store [Some not_authorized]).
  assert (∀ e, Raise (A:=unit) not_authorized = Raise e →
               isinstance_AutoReconnect e = false) as Hfatal
    by (by intros e [= <-]).
  generalize (proj1 (finally_acknowledges_once sample_engine 1)
                sample_update w
                (update_body sample_engine sample_update 1 w).1
                (Raise not_authorized) eq_refl eq_refl Hfatal).
  vm_compute. tauto.
Defined.

(** The request for the second collection meets a lost connection: the
    task for the first collection stays on the queue, once, and the audit
    task follows it. *)
Lemma audit_on_lost_connection_at_second_collection :
  (run_check_indices_task two_collection_engine ACheckIndicesTask 1
     (sample_world sample_store [None; Some connection_lost])).2 = Ok tt
  ∧ q_items
      (task_q
         (run_check_indices_task two_collection_engine ACheckIndicesTask 1
            (sample_world sample_store [None; Some connection_lost])).1)
    = [AnIndexUpdateTask {| iut_collection := "patient";
                            iut_index := "mrn" |};
       ACheckIndicesTask].
Proof.
  generalize (check_indices_fails_after_partial_progress
                two_collection_engine ACheckIndicesTask 1
                (sample_world sample_store [None; Some connection_lost])
                [("patient", ["mrn"; "mrn"])]
                ("trial_match", ["protocol_no"]) [] connection_lost []
                eq_refl eq_refl eq_refl).
  vm_compute. tauto.
Defined.

(** The audit of the empty store, the query with three reasons and the
    poison pill each acknowledge once. *)
Lemma one_acknowledgment_on_sample_runs :
  acks (check_indices_run sample_store []).1 = 1
  ∧ acks (query_run ["s1"; "s2"; "s1"] []).1 = 1
  ∧ acks (run_poison_pill sample_engine APoisonPill 1
            (sample_world sample_store [])).1 = 1.
Proof.
  destruct (one_acknowledgment_when_all_goes_well sample_engine 1
              (sample_world sample_store []))
    as (Hcheck & Hquery & Hpill).
  split_and!.
  - generalize (Hcheck ACheckIndicesTask eq_refl eq_refl eq_refl).
    vm_compute. tauto.
  - generalize (Hquery (sample_query ["s1"; "s2"; "s1"])
                  [(sample_document "s1", "s1");
                   (sample_document "s2", "s2");
                   (sample_document "s1", "s1")]
                  eq_refl eq_refl eq_refl).
    vm_compute. tauto.
  - generalize (Hpill APoisonPill). vm_compute. tauto.
Defined.

(** A run-log task for a trial the engine has no run log for, and one
    for a trial it has no clinical ids for. *)
Lemma run_log_update_on_missing_entries :
  ((run_run_log_update_task sample_engine {| rlt_protocol_no := "P404" |} 1
      (sample_world sample_store [])).2 = Raise (Exn KeyError "P404")
   ∧ db (run_run_log_update_task sample_engine
           {| rlt_protocol_no := "P404" |} 1
           (sample_world sample_store [])).1 = sample_store)
  ∧ ((run_run_log_update_task two_collection_engine sample_run_log_update 1
        (sample_world sample_store [])).2 = Raise (Exn KeyError "P001")
     ∧ ms_docs
         (db (run_run_log_update_task two_collection_engine
                sample_run_log_update 1
                (sample_world sample_store [])).1)
       !! "run_log_trial_match_test"
       = Some [{["protocol_no" := VStr "P001"]}]).
Proof.
  split.
  - generalize (proj1 (run_log_update_without_entries sample_engine
                         {| rlt_protocol_no := "P404" |} 1
                         (sample_world sample_store []) eq_refl) eq_refl).
    vm_compute. tauto.
  - generalize (proj2 (run_log_update_without_entries two_collection_engine
                         sample_run_log_update 1
                         (sample_world sample_store []) eq_refl)
                  _ eq_refl eq_refl eq_refl).
    destruct (run_run_log_update_task _ _ _ _) as [w' r].
    intros (-> & Hdb & _). cbn [fst snd]. rewrite Hdb.
    split; [done|]. vm_compute. reflexivity.
Defined.

(** The second of three reasons does not convert: the document of the
    first stays in its bucket and the counter stands at two. *)
Lemma query_on_a_bad_second_reason :
  loop_stopped (query_run ["s1"; "broken"; "s2"] []).1 = true
  ∧ queue_task_count (query_run ["s1"; "broken"; "s2"] []).1 = 2%Z
  ∧ bucket (matches (query_run ["s1"; "broken"; "s2"] []).1) "P001" "s1"
    = [sample_document "s1"]
  ∧ bucket (matches (query_run ["s1"; "broken"; "s2"] []).1) "P001" "s2"
    = [].
Proof.
  generalize (query_task_stops_at_a_bad_reason sample_engine
                (sample_query ["s1"; "broken"; "s2"]) 1
                (sample_world sample_store [])
                ["s1"] "broken" ["s2"] [(sample_document "s1", "s1")]
                eq_refl eq_refl eq_refl eq_refl).
  fold (query_run ["s1"; "broken"; "s2"] []).
  destruct (query_run ["s1"; "broken"; "s2"] []) as [w' r].
  intros (_ & Hstop & _ & Hcount & Hbuckets). cbn [fst].
  rewrite !Hbuckets. split_and!; [exact Hstop|exact Hcount|done|done].
Defined.


(** The audit of a store that has the index on [mrn]. *)
Lemma audit_of_the_indexed_store :
  (check_indices_run indexed_store []).2 = Ok tt
  ∧ q_items (task_q (check_indices_run indexed_store []).1) = []
  ∧ db (check_indices_run indexed_store []).1 = indexed_store.
Proof.
  assert (∀ entry name,
            entry ∈ config_indices sample_engine →
            name ∈ entry.2 →
            name ∈ leading_keys
                     (list_indexes (db (sample_world indexed_store []))
                        (resolve_collection sample_engine entry.1)))
    as Hthere.
  { intros entry name ->%list_elem_of_singleton ->%list_elem_of_singleton.
    compute_done. }
  generalize (audit_of_an_indexed_store_enqueues_nothing sample_engine
                ACheckIndicesTask 1 (sample_world indexed_store [])
                eq_refl eq_refl eq_refl Hthere).
  vm_compute. tauto.
Defined.
